(** * Presence registry, room routing and message persistence of
    workplace-connect-server (src/services/socket.service.ts and
    MessageService in services/message.service.ts), shallowly embedded.

    Identities, socket ids and group ids are strings (ObjectIds are taken
    in their canonical string form, so [new ObjectId(x).toString() = x]).
    Message ids are natural numbers and times are integers (milliseconds). *)

From stdpp Require Import base gmap strings list fin_maps sorting.

(* ------------------------------------------------------------------ *)
(** ** The connection registry: [this.userSockets : Map<string, string[]>] *)

Abbreviation registry := (gmap string (list string)).

(** Lines 69-71 of the connection handler:
    [const userSockets = this.userSockets.get(userId) || [];
     userSockets.push(socket.id); this.userSockets.set(userId, userSockets);] *)
Definition registerSocket (us : registry) (userId socketId : string) : registry :=
  <[userId := default [] (us !! userId) ++ [socketId]]> us.

(** Lines 249-258 of the disconnect handler. The boolean tells whether
    [this.emitUserStatus(userId, 'offline')] is called. *)
Definition unregisterSocket (us : registry) (userId socketId : string)
    : registry * bool :=
  let updatedSockets := filter (fun id => id <> socketId) (default [] (us !! userId)) in
  if decide (0 < length updatedSockets)
  then (<[userId := updatedSockets]> us, false)
  else (delete userId us, true).

(** [isUserOnline(userId) = this.userSockets.has(userId)] *)
Definition isUserOnline (us : registry) (userId : string) : bool :=
  bool_decide (is_Some (us !! userId)).

(** [getOnlineUsers() = Array.from(this.userSockets.keys())]; the key order
    of a JS Map (insertion order) is not modelled, only the key list. *)
Definition getOnlineUsers (us : registry) : list string :=
  (map_to_list us).*1.

(** Sequences of connect / disconnect registry operations. *)
Inductive RegOp :=
| Register (userId socketId : string)
| Unregister (userId socketId : string).

Definition applyRegOp (us : registry) (op : RegOp) : registry :=
  match op with
  | Register u c => registerSocket us u c
  | Unregister u c => (unregisterSocket us u c).1
  end.

Definition runRegOps (us : registry) (ops : list RegOp) : registry :=
  foldl applyRegOp us ops.


(* ------------------------------------------------------------------ *)
(** ** Persisted messages (models/message.model.ts) and the envelope *)

Record Message := mkMessage {
  m_id : nat;
  content : string;
  sender : string;
  receiver : option string;
  group : option string;
  readBy : list string;
  createdAt : Z;
  updatedAt : Z  (** the schema has [{ timestamps: true }] *)
}.

(** The [formattedMessage] object of the send-message handler; the sender
    display fields filled in by [populate] are left out. *)
Record Envelope := mkEnvelope {
  e_id : nat;
  text : string;
  e_sender : string;
  timestamp : Z;
  isOwn : bool
}.

Definition withIsOwn (b : bool) (e : Envelope) : Envelope :=
  mkEnvelope (e_id e) (text e) (e_sender e) (timestamp e) b.

(** Lines 99-110. *)
Definition formatMessage (m : Message) : Envelope :=
  mkEnvelope (m_id m) (content m) (sender m) (createdAt m) false.

(** Events a socket can receive. *)
Inductive Event :=
| UserStatus (userId : string) (online : bool)
| DirectMessage (env : Envelope)
| GroupMessage (env : Envelope) (groupId : string)
| MessageSent (env : Envelope)
| UserJoinedGroup (userId groupId : string)
| UserLeftGroup (userId groupId : string)
| UserTyping (userId : string) (groupId : option string)
| UserStoppedTyping (userId : string) (groupId : option string)
| MessagesMarkedRead (messageIds : list nat)
| ErrorEvent (message : string).

(** One event delivered to one socket (by socket id). *)
Abbreviation Delivery := (string * Event)%type.

(** The whole process state: the service's registry, socket.io's set of
    connected sockets (socket id -> [socket.userId]) and its rooms
    (room name -> socket ids), and the message collection of the database. *)
Record Server := mkServer {
  userSockets : gmap string (list string);
  sockets : gmap string string;
  rooms : gmap string (list string);
  messages : list Message
}.

Definition emptyServer : Server := mkServer ∅ ∅ ∅ [].

(** External collaborators: the JWT library, the [User] and [Group]
    collections and the raw [Message.create] write. *)
Class Collaborators := {
  (** [jwt.verify(token, secret).id]; [None] when it throws *)
  verifyToken : string -> option string;
  (** [User.findById(id) != null] *)
  userExists : string -> bool;
  (** [Group.findById(id)]: the members, [None] for no such group *)
  findGroup : string -> option (list string);
  (** [mongoose.Types.ObjectId.isValid] *)
  isValidObjectId : string -> bool;
  (** [Message.create(doc)] on the current collection; [None] = it throws *)
  createMessageDoc : list Message -> Message -> option (list Message)
}.

(** The persistence collaborator of the send-message handler. *)
Abbreviation Persist :=
  (list Message -> Z -> string -> string -> option string -> option string ->
   string + (Message * list Message))%type.

Section Service.
Context `{E : Collaborators}.

(** *** socket.io primitives *)

Definition roomMembers (rs : gmap string (list string)) (room : string) : list string :=
  default [] (rs !! room).

(** [socket.join(room)]: rooms are sets of socket ids. *)
Definition joinRoom (rs : gmap string (list string)) (room sid : string) :=
  let l := roomMembers rs room in
  if decide (sid ∈ l) then rs else <[room := l ++ [sid]]> rs.

(** [socket.leave(room)]: a room that becomes empty is deleted. *)
Definition leaveRoom (rs : gmap string (list string)) (room sid : string) :=
  match rs !! room with
  | None => rs
  | Some l =>
      let l' := filter (fun x => x <> sid) l in
      match l' with [] => delete room rs | _ => <[room := l']> rs end
  end.

(** Leaving all rooms on disconnect. *)
Definition leaveAll (rs : gmap string (list string)) (sid : string) :=
  omap (fun l => match filter (fun x => x <> sid) l with
                 | [] => None | l' => Some l' end) rs.

Definition deliverTo (ids : list string) (ev : Event) : list Delivery :=
  (fun sid => (sid, ev)) <$> ids.

(** [io.to(room).emit(ev)] *)
Definition ioTo (s : Server) (room : string) (ev : Event) : list Delivery :=
  deliverTo (roomMembers (rooms s) room) ev.

(** [socket.to(room).emit(ev)]: everybody in the room but the socket. *)
Definition socketTo (s : Server) (sid room : string) (ev : Event) : list Delivery :=
  deliverTo (filter (fun x => x <> sid) (roomMembers (rooms s) room)) ev.

(** [io.emit(ev)]: every connected socket. *)
Definition ioEmit (s : Server) (ev : Event) : list Delivery :=
  deliverTo ((map_to_list (sockets s)).*1) ev.

Definition groupRoom (groupId : string) : string := "group:" ++ groupId.

(** *** SocketService emitters *)

Definition emitUserStatus (s : Server) (userId : string) (online : bool) :=
  ioEmit s (UserStatus userId online).

Definition emitDirectMessage (s : Server) (senderId receiverId : string) (m : Envelope) :=
  ioTo s senderId (DirectMessage (withIsOwn true m)) ++
  ioTo s receiverId (DirectMessage (withIsOwn false m)).

Definition emitGroupMessage (s : Server) (groupId : string) (m : Envelope) :=
  ioTo s (groupRoom groupId) (GroupMessage m groupId).

(** *** MessageService (services/message.service.ts) *)

(** [new Error(msg)] thrown by a service, or a failed database call. *)
Definition DbError : string := "Database error".

(** [MessageService.sendMessage]: the checks in source order, then
    [Message.create] with [readBy: [senderId]]; [now] is the creation time. *)
Definition sendMessage (ms : list Message) (now : Z) (senderId content : string)
    (receiverId groupId : option string) : string + (Message * list Message) :=
  match receiverId, groupId with
  | None, None => inl "Either receiver or group must be provided"
  | Some _, Some _ => inl "Message cannot have both receiver and group"
  | _, _ =>
    let receiverOk :=
      match receiverId with
      | Some r => if userExists r then inr tt else inl "Receiver not found"
      | None => inr tt
      end in
    match receiverOk with
    | inl e => inl e
    | inr _ =>
      let groupOk :=
        match groupId with
        | Some g =>
            match findGroup g with
            | None => inl "Group not found"
            | Some members =>
                if decide (senderId ∈ members) then inr tt
                else inl "You are not a member of this group"
            end
        | None => inr tt
        end in
      match groupOk with
      | inl e => inl e
      | inr _ =>
        let m := mkMessage (length ms) content senderId receiverId groupId
                   [senderId] now now in
        match createMessageDoc ms m with
        | None => inl DbError
        | Some ms' => inr (m, ms')
        end
      end
    end
  end.

(** [$addToSet] on an array field. *)
Definition addToSet (l : list string) (x : string) : list string :=
  if decide (x ∈ l) then l else l ++ [x].

(** [MessageService.markMessagesAsRead]:
    [Message.updateMany({ _id: { $in: messageIds }, readBy: { $ne: userId } },
                        { $addToSet: { readBy: userId } })].
    Because the schema has [{ timestamps: true }], Mongoose adds
    [$set: { updatedAt: now }] to the update of [updateMany]. *)
Definition markOne (userId : string) (messageIds : list nat) (now : Z) (m : Message)
    : Message :=
  if bool_decide (m_id m ∈ messageIds) && bool_decide (userId ∉ readBy m)
  then mkMessage (m_id m) (content m) (sender m) (receiver m) (group m)
         (addToSet (readBy m) userId) (createdAt m) now
  else m.

Definition markMessagesAsRead (ms : list Message) (userId : string)
    (messageIds : list nat) (now : Z) : list Message :=
  markOne userId messageIds now <$> ms.

(** *** Input validation: [createMessageSchema.parse] *)

Record SendData := mkSendData {
  d_content : string;
  d_receiver : option string;
  d_group : option string
}.

Definition isJsWhitespace (a : Ascii.ascii) : bool :=
  match Ascii.nat_of_ascii a with
  | 9 | 10 | 11 | 12 | 13 | 32 => true
  | _ => false
  end.

Fixpoint trimStart (s : string) : string :=
  match s with
  | String a s' => if isJsWhitespace a then trimStart s' else s
  | EmptyString => EmptyString
  end.

Fixpoint trimEnd (s : string) : string :=
  match s with
  | String a s' =>
      let r := trimEnd s' in
      if isJsWhitespace a && bool_decide (r = EmptyString) then EmptyString
      else String a r
  | EmptyString => EmptyString
  end.

Definition trimString (s : string) : string := trimEnd (trimStart s).

(** A JS string is truthy iff it is not empty. *)
Definition truthy (o : option string) : option string :=
  match o with Some x => if decide (x = "") then None else Some x | None => None end.

(** [z.string().min(1).trim()] checks the length before trimming; the
    ids must pass [isValidObjectId]; exactly one target is given. The
    ZodError's message text is not modelled. *)
Definition parseCreateMessage (d : SendData)
    : option (string * option string * option string) :=
  if decide (String.length (d_content d) < 1) then None else
  let idOk o := match o with Some x => isValidObjectId x | None => true end in
  if negb (idOk (d_receiver d) && idOk (d_group d)) then None else
  match truthy (d_receiver d), truthy (d_group d) with
  | None, None => None
  | Some _, Some _ => None
  | _, _ => Some (trimString (d_content d), d_receiver d, d_group d)
  end.

Definition ValidationError : string := "ZodError".

(** *** SocketService handlers (setupSocketAuth, setupEventHandlers) *)

Definition setUserSockets (s : Server) us := mkServer us (sockets s) (rooms s) (messages s).
Definition setSockets (s : Server) ss := mkServer (userSockets s) ss (rooms s) (messages s).
Definition setRooms (s : Server) rs := mkServer (userSockets s) (sockets s) rs (messages s).
Definition setMessages (s : Server) ms := mkServer (userSockets s) (sockets s) (rooms s) ms.

(** [setupSocketAuth]: the handshake middleware; [None] = [next(new Error(..))],
    the connection is refused. [token] is [socket.handshake.auth.token]. *)
Definition authenticate (token : option string) : option string :=
  match truthy token with
  | None => None
  | Some t =>
      match verifyToken t with
      | None => None
      | Some id => if userExists id then Some id else None
      end
  end.

(** The ['connection'] event: socket.io has added the socket to the
    connected sockets and to its own room; then lines 68-78 run. *)
Definition onConnection (s : Server) (sid userId : string) : Server * list Delivery :=
  let s1 := setRooms (setSockets s (<[sid := userId]> (sockets s)))
                     (joinRoom (rooms s) sid sid) in
  if decide (userId = "") then (s1, []) else
  let s2 := setRooms (setUserSockets s1 (registerSocket (userSockets s1) userId sid))
                     (joinRoom (rooms s1) userId sid) in
  (s2, emitUserStatus s2 userId true).

(** A transport connection with handshake token [token]. *)
Definition connect (s : Server) (sid : string) (token : option string)
    : Server * list Delivery :=
  match authenticate token with
  | None => (s, [])
  | Some userId => onConnection s sid userId
  end.

(** ['send-message'] (lines 81-133), with the persistence collaborator
    [persist] ([this.messageService.sendMessage]) as a parameter. *)
Definition onSendMessage (persist : Persist) (s : Server) (now : Z) (sid : string)
    (data : SendData) : Server * list Delivery :=
  match sockets s !! sid with
  | None => (s, [])
  | Some userId =>
    if decide (userId = "") then (s, [(sid, ErrorEvent "Authentication required")]) else
    match parseCreateMessage data with
    | None => (s, [(sid, ErrorEvent ValidationError)])
    | Some (c, receiverId, groupId) =>
      match persist (messages s) now userId c receiverId groupId with
      | inl err => (s, [(sid, ErrorEvent err)])
      | inr (m, ms') =>
        let s' := setMessages s ms' in
        let fm := formatMessage m in
        let out :=
          match receiverId with
          | Some r => emitDirectMessage s' userId r fm
          | None =>
              match groupId with
              | Some g => emitGroupMessage s' g fm
              | None => []
              end
          end in
        (s', out ++ [(sid, MessageSent (withIsOwn true fm))])
      end
    end
  end.

(** ['join-group'] (lines 136-168); [Group.findById] throws a CastError on
    an invalid id, caught as "Failed to join group". *)
Definition onJoinGroup (s : Server) (sid groupId : string) : Server * list Delivery :=
  match sockets s !! sid with
  | None => (s, [])
  | Some userId =>
    if decide (userId = "") then (s, [(sid, ErrorEvent "Authentication required")]) else
    if negb (isValidObjectId groupId) then (s, [(sid, ErrorEvent "Failed to join group")]) else
    match findGroup groupId with
    | None => (s, [(sid, ErrorEvent "Group not found")])
    | Some members =>
      if decide (userId ∉ members)
      then (s, [(sid, ErrorEvent "You are not a member of this group")])
      else
        let s' := setRooms s (joinRoom (rooms s) (groupRoom groupId) sid) in
        (s', socketTo s' sid (groupRoom groupId) (UserJoinedGroup userId groupId))
    end
  end.

(** ['leave-group'] (lines 171-180). *)
Definition onLeaveGroup (s : Server) (sid groupId : string) : Server * list Delivery :=
  match sockets s !! sid with
  | None => (s, [])
  | Some userId =>
    let s' := setRooms s (leaveRoom (rooms s) (groupRoom groupId) sid) in
    (s', socketTo s' sid (groupRoom groupId) (UserLeftGroup userId groupId))
  end.

Record TypingData := mkTypingData { t_receiverId : option string; t_groupId : option string }.

(** ['typing-start'] / ['typing-stop'] (lines 183-215). *)
Definition onTyping (stop : bool) (s : Server) (sid : string) (data : TypingData)
    : Server * list Delivery :=
  match sockets s !! sid with
  | None => (s, [])
  | Some userId =>
    let ev g := if stop then UserStoppedTyping userId g else UserTyping userId g in
    match truthy (t_receiverId data) with
    | Some r => (s, socketTo s sid r (ev None))
    | None =>
      match truthy (t_groupId data) with
      | Some g => (s, socketTo s sid (groupRoom g) (ev (Some g)))
      | None => (s, [])
      end
    end
  end.

(** ['mark-messages-read'] (lines 218-241). *)
Definition onMarkMessagesRead (s : Server) (now : Z) (sid : string) (ids : list nat)
    : Server * list Delivery :=
  match sockets s !! sid with
  | None => (s, [])
  | Some userId =>
    if decide (userId = "") then (s, [(sid, ErrorEvent "Authentication required")]) else
    (setMessages s (markMessagesAsRead (messages s) userId ids now),
     [(sid, MessagesMarkedRead ids)])
  end.

(** ['disconnect']: socket.io first removes the socket from the connected
    sockets and from all its rooms, then lines 245-259 run. *)
Definition onDisconnect (s : Server) (sid : string) : Server * list Delivery :=
  match sockets s !! sid with
  | None => (s, [])
  | Some userId =>
    let s1 := setRooms (setSockets s (delete sid (sockets s))) (leaveAll (rooms s) sid) in
    if decide (userId = "") then (s1, []) else
    let '(us', offline) := unregisterSocket (userSockets s1) userId sid in
    let s2 := setUserSockets s1 us' in
    (s2, if offline then emitUserStatus s2 userId false else [])
  end.

Inductive Action :=
| Connect (token : option string)
| SendMessageCmd (data : SendData)
| JoinGroup (groupId : string)
| LeaveGroup (groupId : string)
| TypingStart (data : TypingData)
| TypingStop (data : TypingData)
| MarkMessagesRead (messageIds : list nat)
| Disconnect.

(** One transport event of socket [sid] at time [now]. *)
Definition step (s : Server) (now : Z) (sid : string) (a : Action) : Server * list Delivery :=
  match a with
  | Connect token => connect s sid token
  | SendMessageCmd d => onSendMessage sendMessage s now sid d
  | JoinGroup g => onJoinGroup s sid g
  | LeaveGroup g => onLeaveGroup s sid g
  | TypingStart d => onTyping false s sid d
  | TypingStop d => onTyping true s sid d
  | MarkMessagesRead ids => onMarkMessagesRead s now sid ids
  | Disconnect => onDisconnect s sid
  end.

Record Input := mkInput { at_time : Z; actor : string; act : Action }.

(** Runs a trace; the log keeps, per step, the actor and its deliveries. *)
Fixpoint run (s : Server) (tr : list Input) : Server * list (string * list Delivery) :=
  match tr with
  | [] => (s, [])
  | i :: tr' =>
      let '(s1, out) := step s (at_time i) (actor i) (act i) in
      let '(s2, log) := run s1 tr' in
      (s2, (actor i, out) :: log)
  end.

End Service.

(* ------------------------------------------------------------------ *)
(** ** MessageService queries and deletion *)

(** [.sort({ createdAt: -1 })]: newest first. MongoDB leaves the order of
    equal [createdAt] unspecified; a stable sort in storage order is used. *)
Definition newerOrSame (a b : Message) : Prop := (createdAt b <= createdAt a)%Z.

#[export] Instance newerOrSame_dec : RelDecision newerOrSame.
Proof. intros a b. unfold newerOrSame. apply _. Defined.

#[export] Instance newerOrSame_trans : Transitive newerOrSame.
Proof. unfold newerOrSame. intros a b c ??. lia. Qed.

#[export] Instance newerOrSame_total : Total newerOrSame.
Proof. unfold newerOrSame. intros a b. lia. Qed.

Definition sortNewestFirst (l : list Message) : list Message :=
  merge_sort newerOrSame l.

(** [.sort({ createdAt: -1 }).skip(skip).limit(limit)], then [.reverse()]
    and [hasMore: skip + messages.length < totalCount], with
    [skip = (page - 1) * limit]. MongoDB rejects a negative skip ([None]);
    [limit(0)] means no limit and a negative limit returns [|limit|]
    documents. *)
Definition paginate (l : list Message) (page limit : Z) : option (list Message * bool) :=
  let skip := ((page - 1) * limit)%Z in
  if decide (skip < 0)%Z then None else
  let afterSkip := drop (Z.to_nat skip) (sortNewestFirst l) in
  let msgs := if decide (limit = 0)%Z then afterSkip
              else take (Z.to_nat (Z.abs limit)) afterSkip in
  Some (reverse msgs, bool_decide (skip + Z.of_nat (length msgs) < Z.of_nat (length l))%Z).

(** The query [{ $or: [{ sender: u, receiver: o }, { sender: o, receiver: u }] }]. *)
Definition inConversation (userId otherUserId : string) (m : Message) : Prop :=
  (sender m = userId /\ receiver m = Some otherUserId) \/
  (sender m = otherUserId /\ receiver m = Some userId).

Definition SkipError : string := "BadValue: skip value must be non-negative".

Section Queries.
Context `{E : Collaborators}.

(** [MessageService.getDirectMessages]: messages, totalCount, hasMore. *)
Definition getDirectMessages (ms : list Message) (userId otherUserId : string)
    (page limit : Z) : string + (list Message * nat * bool) :=
  if negb (userExists otherUserId) then inl "User not found" else
  let conv := filter (inConversation userId otherUserId) ms in
  match paginate conv page limit with
  | None => inl SkipError
  | Some (msgs, hasMore) => inr (msgs, length conv, hasMore)
  end.

(** [MessageService.getGroupMessages]. *)
Definition getGroupMessages (ms : list Message) (userId groupId : string)
    (page limit : Z) : string + (list Message * nat * bool) :=
  match findGroup groupId with
  | None => inl "Group not found"
  | Some members =>
    if decide (userId ∉ members) then inl "You are not a member of this group" else
    let conv := filter (fun m => group m = Some groupId) ms in
    match paginate conv page limit with
    | None => inl SkipError
    | Some (msgs, hasMore) => inr (msgs, length conv, hasMore)
    end
  end.

End Queries.

(** [MessageService.getUnreadDirectMessageCount]:
    [countDocuments({ sender: other, receiver: user, readBy: { $ne: user } })]. *)
Definition getUnreadDirectMessageCount (ms : list Message) (userId otherUserId : string) : nat :=
  length (filter (fun m => sender m = otherUserId /\ receiver m = Some userId /\
                           userId ∉ readBy m) ms).

(** [MessageService.getUnreadGroupMessageCount]:
    [countDocuments({ group, sender: { $ne: user }, readBy: { $ne: user } })]. *)
Definition getUnreadGroupMessageCount (ms : list Message) (userId groupId : string) : nat :=
  length (filter (fun m => group m = Some groupId /\ sender m <> userId /\
                           userId ∉ readBy m) ms).

(** [Message.findById(id)]. *)
Definition findMessageById (ms : list Message) (messageId : nat) : option Message :=
  List.find (fun m => bool_decide (m_id m = messageId)) ms.

(** [MessageService.deleteMessage]; [findByIdAndDelete] removes the document
    with that [_id] ([_id] is unique in the collection). *)
Definition deleteMessage (ms : list Message) (messageId : nat) (userId : string)
    : string + list Message :=
  match findMessageById ms messageId with
  | None => inl "Message not found"
  | Some m =>
      if decide (sender m <> userId) then inl "You can only delete your own messages"
      else inr (filter (fun m' => m_id m' <> messageId) ms)
  end.

(* ------------------------------------------------------------------ *)
(** ** A concrete deployment used for scenarios and witnesses:
    three users with tokens "t1", "t2", "t3", one group "G1" of all three,
    every id well formed and every database write succeeding. *)

Definition demoCollab : Collaborators := {|
  verifyToken := fun t =>
    if decide (t = "t1") then Some "U1" else
    if decide (t = "t2") then Some "U2" else
    if decide (t = "t3") then Some "U3" else None;
  userExists := fun u => bool_decide (u ∈ ["U1"; "U2"; "U3"]);
  findGroup := fun g => if decide (g = "G1") then Some ["U1"; "U2"; "U3"] else None;
  isValidObjectId := fun _ => true;
  createMessageDoc := fun ms m => Some (ms ++ [m])
|}.

(** U1 connects as c1 and joins G1, U2 connects as c2 and joins G1, U3
    (a member of G1) connects as c3 without joining the room. *)
Definition scenarioSetup : list Input :=
  [mkInput 0 "c1" (Connect (Some "t1")); mkInput 1 "c1" (JoinGroup "G1");
   mkInput 2 "c2" (Connect (Some "t2")); mkInput 3 "c2" (JoinGroup "G1");
   mkInput 4 "c3" (Connect (Some "t3"))].

Definition scenarioState : Server := fst (run (E := demoCollab) emptyServer scenarioSetup).

Definition helloData : SendData := mkSendData "hello" None (Some "G1").

(** Delivery of a direct or group message. *)
Definition isMessageDelivery (d : Delivery) : bool :=
  match d.2 with DirectMessage _ | GroupMessage _ _ => true | _ => false end.

(** Delivery of [user-status online] for [u]. *)
Definition isOnlineStatusFor (u : string) (d : Delivery) : bool :=
  match d.2 with UserStatus v true => bool_decide (v = u) | _ => false end.

(** No identity is mapped to an empty list. *)
Definition nonEmptyEntries (us : registry) : Prop :=
  forall u l, us !! u = Some l -> l <> [].


(** No list of the map holds [sid]. *)
Definition absentFrom (m : gmap string (list string)) (sid : string) : Prop :=
  forall k l, m !! k = Some l -> sid ∉ l.

(** Socket [sid] is nowhere in the presence state: not a connected socket,
    in no identity's list and in no room. *)
Definition notAdmitted (s : Server) (sid : string) : Prop :=
  sockets s !! sid = None /\ absentFrom (userSockets s) sid /\ absentFrom (rooms s) sid.

(** The registry lists, under each identity, distinct sockets that are
    connected as that identity; the anonymous identity "" has no entry. *)
Definition regOk (us : gmap string (list string)) (ss : gmap string string) : Prop :=
  forall u l, us !! u = Some l ->
    u <> "" /\ l <> [] /\ NoDup l /\ forall c, c ∈ l -> ss !! c = Some u.

(** Every connected socket of a non-anonymous identity is registered. *)
Definition regComplete (us : gmap string (list string)) (ss : gmap string string) : Prop :=
  forall c u, ss !! c = Some u -> u <> "" -> exists l, us !! u = Some l /\ c ∈ l.

(** Rooms are non-empty sets of connected sockets. *)
Definition roomsOk (rs : gmap string (list string)) (ss : gmap string string) : Prop :=
  forall r l, rs !! r = Some l -> l <> [] /\ NoDup l /\ forall c, c ∈ l -> is_Some (ss !! c).

Definition consistent (s : Server) : Prop :=
  regOk (userSockets s) (sockets s) /\ regComplete (userSockets s) (sockets s) /\
  roomsOk (rooms s) (sockets s).

(** socket.io hands every new connection a fresh id. *)
Definition freshConnect (s : Server) (sid : string) (a : Action) : Prop :=
  match a with Connect _ => sockets s !! sid = None | _ => True end.

Fixpoint connectsFresh `{E : Collaborators} (s : Server) (tr : list Input) : bool :=
  match tr with
  | [] => true
  | i :: tr' =>
      match act i with
      | Connect _ => bool_decide (sockets s !! actor i = None)
      | _ => true
      end && connectsFresh (step s (at_time i) (actor i) (act i)).1 tr'
  end.

(** Every connected socket of a logged-in identity is in the room named
    by that identity (lines 73-74 of the connection handler). *)
Definition userRoomsOk (s : Server) : Prop :=
  forall c u, sockets s !! c = Some u -> u <> "" -> c ∈ roomMembers (rooms s) u.

(** A [leave-group] whose room name is not the identity of the socket
    ([groupRoom g = "group:" ++ g], while identities are ObjectIds). *)
Definition leaveSafe (s : Server) (sid : string) (a : Action) : Prop :=
  match a with LeaveGroup g => sockets s !! sid <> Some (groupRoom g) | _ => True end.

Fixpoint leavesSafe `{E : Collaborators} (s : Server) (tr : list Input) : bool :=
  match tr with
  | [] => true
  | i :: tr' =>
      match act i with
      | LeaveGroup g => bool_decide (sockets s !! actor i <> Some (groupRoom g))
      | _ => true
      end && leavesSafe (step s (at_time i) (actor i) (act i)).1 tr'
  end.


(** The deployment of [demoCollab] with the id check of
    [mongoose.Types.ObjectId.isValid] refusing the empty string. *)
Definition strictIdCollab : Collaborators := {|
  verifyToken := @verifyToken demoCollab;
  userExists := @userExists demoCollab;
  findGroup := @findGroup demoCollab;
  isValidObjectId := fun x => bool_decide (x <> "");
  createMessageDoc := @createMessageDoc demoCollab
|}.

(** The sockets an event emitted by [actorId] can reach in state [s]. *)
Definition reachableTarget (s : Server) (actorId t : string) : Prop :=
  t = actorId \/ is_Some (sockets s !! t) \/
  exists r l, rooms s !! r = Some l /\ t ∈ l.

(** Another user connects, then socket c9 tries a bad token and keeps
    sending commands. *)
Definition badHandshakeTrace : list Input :=
  [mkInput 0 "c1" (Connect (Some "t1")); mkInput 1 "c9" (Connect (Some "forged"));
   mkInput 2 "c9" (JoinGroup "G1"); mkInput 3 "c1" (JoinGroup "G1");
   mkInput 4 "c9" (SendMessageCmd helloData); mkInput 5 "c1" (SendMessageCmd helloData)].

(** A persistence collaborator that always fails. *)
Definition failingPersist : Persist := fun _ _ _ _ _ _ => inl DbError.

(** A message U1 sent to U2, not yet read by U2. *)
Definition unreadMessage : Message :=
  mkMessage 0 "hi" "U1" (Some "U2") None ["U1"] 0 0.

(** A small message store: a direct exchange of U1 and U2 and one message
    of U1 to the group G1. *)
Definition msgA : Message := mkMessage 0 "hi" "U1" (Some "U2") None ["U1"] 10 10.
Definition msgB : Message := mkMessage 1 "yo" "U2" (Some "U1") None ["U2"] 20 20.
Definition msgC : Message := mkMessage 2 "all" "U1" None (Some "G1") ["U1"] 30 30.
Definition demoStore : list Message := [msgA; msgB; msgC].

(** The documents U1 creates at time 40 when sending "x" to U2, and "y"
    to G1, in [demoStore]. *)
Definition msgD : Message := mkMessage 3 "x" "U1" (Some "U2") None ["U1"] 40 40.
Definition msgE : Message := mkMessage 3 "y" "U1" None (Some "G1") ["U1"] 40 40.

(* ================================================================== *)
(** * Properties *)

(** ** Registry lemmas *)

Lemma filter_all_id (P : string -> Prop) `{forall x, Decision (P x)} (l : list string) :
  (forall x, x ∈ l -> P x) -> filter P l = l.
Proof.
  induction l as [|y l IH]; intros Hall; [done|].
  rewrite filter_cons_True by (apply Hall; set_solver).
  f_equal. apply IH. intros x Hx. apply Hall. set_solver.
Qed.

Lemma registerSocket_nonEmpty us u c :
  nonEmptyEntries us -> nonEmptyEntries (registerSocket us u c).
Proof.
  unfold registerSocket. intros Hus v l Hv.
  destruct (decide (u = v)) as [->|Hne].
  - rewrite lookup_insert_eq in Hv. injection Hv as <-.
    destruct (default [] (us !! v)); discriminate.
  - rewrite lookup_insert_ne in Hv by done. eauto.
Qed.

Lemma unregisterSocket_nonEmpty us u c :
  nonEmptyEntries us -> nonEmptyEntries (unregisterSocket us u c).1.
Proof.
  unfold unregisterSocket. intros Hus v l Hv.
  case_decide as Hlen; simpl in Hv.
  - destruct (decide (u = v)) as [->|Hne].
    + rewrite lookup_insert_eq in Hv. injection Hv as <-.
      intros Hnil. rewrite Hnil in Hlen. simpl in Hlen. lia.
    + rewrite lookup_insert_ne in Hv by done. eauto.
  - destruct (decide (u = v)) as [->|Hne].
    + by rewrite lookup_delete_eq in Hv.
    + rewrite lookup_delete_ne in Hv by done. eauto.
Qed.

Lemma runRegOps_nonEmpty ops : forall us,
  nonEmptyEntries us -> nonEmptyEntries (runRegOps us ops).
Proof.
  induction ops as [|[u c|u c] ops IH]; intros us Hus; simpl; [done| |].
  - apply IH. by apply registerSocket_nonEmpty.
  - apply IH. by apply unregisterSocket_nonEmpty.
Qed.

Lemma getOnlineUsers_spec us u : u ∈ getOnlineUsers us <-> is_Some (us !! u).
Proof.
  unfold getOnlineUsers. rewrite list_elem_of_fmap. split.
  - intros [[k l] [-> Hin]]. apply elem_of_map_to_list in Hin. simpl. by exists l.
  - intros [l Hl]. exists (u, l). split; [done|]. by apply elem_of_map_to_list.
Qed.

(** C2: in every registry state reachable from the empty registry by
    registers and unregisters, no identity is mapped to an empty list,
    [isUserOnline u] holds iff [u] has at least one registered connection,
    and [getOnlineUsers] lists exactly those identities. *)
Theorem registry_online_iff_connections (ops : list RegOp) :
  let us := runRegOps ∅ ops in
  nonEmptyEntries us /\
  (forall u, isUserOnline us u = true <-> exists l, us !! u = Some l /\ l <> []) /\
  (forall u, u ∈ getOnlineUsers us <-> exists l, us !! u = Some l /\ l <> []).
Proof.
  intros us.
  assert (Hne : nonEmptyEntries us).
  { apply runRegOps_nonEmpty. intros u l H. by rewrite lookup_empty in H. }
  split; [done|]. split; intros u.
  - unfold isUserOnline. rewrite bool_decide_eq_true. split.
    + intros [l Hl]. exists l. split; [done|]. by apply (Hne u).
    + intros (l & Hl & _). by exists l.
  - rewrite getOnlineUsers_spec. split.
    + intros [l Hl]. exists l. split; [done|]. by apply (Hne u).
    + intros (l & Hl & _). by exists l.
Qed.











(** ** The send-message handler *)

(** C1: when the persistence collaborator fails on the call the handler
    makes, the server state is unchanged and the only event is one error on
    the sending socket; and any direct or group message delivery comes from
    a call where persistence returned a message. *)
Theorem sendMessage_failure_no_delivery `{E : Collaborators} :
  (forall (persist : Persist) s now sid data userId c r g err,
     sockets s !! sid = Some userId -> userId <> "" ->
     parseCreateMessage data = Some (c, r, g) ->
     persist (messages s) now userId c r g = inl err ->
     onSendMessage persist s now sid data = (s, [(sid, ErrorEvent err)])) /\
  (forall (persist : Persist) s now sid data s' out d,
     onSendMessage persist s now sid data = (s', out) ->
     d ∈ out -> isMessageDelivery d = true ->
     exists userId c r g m ms',
       sockets s !! sid = Some userId /\ parseCreateMessage data = Some (c, r, g) /\
       persist (messages s) now userId c r g = inr (m, ms')).
Proof.
  split.
  - intros persist s now sid data userId c r g err Hs Hu Hp Hf.
    unfold onSendMessage. rewrite Hs, decide_False by done. rewrite Hp, Hf. done.
  - intros persist s now sid data s' out d Hrun Hd Hm.
    unfold onSendMessage in Hrun.
    destruct (sockets s !! sid) as [userId|] eqn:Hs;
      [|injection Hrun as _ <-; by apply elem_of_nil in Hd].
    case_decide.
    { injection Hrun as _ <-. apply list_elem_of_singleton in Hd as ->. discriminate. }
    destruct (parseCreateMessage data) as [[[c r] g]|] eqn:Hp;
      [|injection Hrun as _ <-; apply list_elem_of_singleton in Hd as ->; discriminate].
    destruct (persist (messages s) now userId c r g) as [err|[m ms']] eqn:Hf.
    + injection Hrun as _ <-. apply list_elem_of_singleton in Hd as ->. discriminate.
    + exists userId, c, r, g, m, ms'. done.
Qed.

Lemma sendMessage_failure_no_delivery_witness :
  sockets scenarioState !! "c1" = Some "U1" /\ ("U1" <> "") /\
  parseCreateMessage (E := demoCollab) helloData = Some ("hello", None, Some "G1") /\
  failingPersist (messages scenarioState) 5 "U1" "hello" None (Some "G1") = inl DbError /\
  onSendMessage (E := demoCollab) failingPersist scenarioState 5 "c1" helloData
    = (scenarioState, [("c1", ErrorEvent DbError)]).
Proof.
  assert (H1 : sockets scenarioState !! "c1" = Some "U1") by reflexivity.
  assert (H2 : "U1" <> "") by discriminate.
  assert (H3 : parseCreateMessage (E := demoCollab) helloData = Some ("hello", None, Some "G1"))
    by reflexivity.
  assert (H4 : failingPersist (messages scenarioState) 5 "U1" "hello" None (Some "G1")
               = inl DbError) by reflexivity.
  split; [exact H1|]. split; [exact H2|]. split; [exact H3|]. split; [exact H4|].
  exact (proj1 (sendMessage_failure_no_delivery (E := demoCollab))
           failingPersist scenarioState 5%Z "c1" helloData "U1" "hello" None (Some "G1")
           DbError H1 H2 H3 H4).
Defined.

(** C4 (code defect): in the scenario, U1's own socket c1 receives the
    group-message envelope with [isOwn = false] (only the [message-sent]
    acknowledgement carries [isOwn = true]); exactly one message is stored
    and c3 (a member of G1 that has not joined the room) receives nothing. *)
Theorem groupMessage_sender_isOwn_false :
  let '(s', out) := step (E := demoCollab) scenarioState 5 "c1" (SendMessageCmd helloData) in
  let env := mkEnvelope 0 "hello" "U1" 5 false in
  out = [("c1", GroupMessage env "G1"); ("c2", GroupMessage env "G1");
         ("c1", MessageSent (withIsOwn true env))] /\
  length (messages s') = 1.
Proof. vm_compute. split; reflexivity. Qed.

(** ** Connection and presence *)

(** C3 (amended): every admitted connection with a non-empty user id
    appends the socket to the user's list and broadcasts one
    [user-status online] event to every connected socket (the new one
    included), whether or not the user already had connections. *)
Theorem connect_always_emits_online `{E : Collaborators} :
  forall s sid token userId,
    authenticate token = Some userId -> userId <> "" ->
    let '(s', out) := connect s sid token in
    sockets s' = <[sid := userId]> (sockets s) /\
    userSockets s' !! userId = Some (default [] (userSockets s !! userId) ++ [sid]) /\
    out = deliverTo ((map_to_list (sockets s')).*1) (UserStatus userId true).
Proof.
  intros s sid token userId Ha Hu.
  unfold connect. rewrite Ha. unfold onConnection.
  rewrite decide_False by done. simpl.
  split; [done|]. split; [|done].
  unfold registerSocket. by rewrite lookup_insert_eq.
Qed.

Lemma connect_always_emits_online_witness :
  authenticate (E := demoCollab) (Some "t1") = Some "U1" /\ ("U1" <> "") /\
  userSockets (fst (connect (E := demoCollab) scenarioState "c4" (Some "t1"))) !! "U1"
    = Some ["c1"; "c4"].
Proof.
  assert (H1 : authenticate (E := demoCollab) (Some "t1") = Some "U1") by reflexivity.
  assert (H2 : "U1" <> "") by discriminate.
  split; [exact H1|]. split; [exact H2|].
  pose proof (connect_always_emits_online (E := demoCollab) scenarioState "c4"
                (Some "t1") "U1" H1 H2) as H.
  destruct (connect scenarioState "c4" (Some "t1")) as [s' out].
  destruct H as [_ [H _]]. simpl. rewrite H. reflexivity.
Defined.

(** C3 counterexample: U1 is already online (socket c1) in the scenario;
    a second connection of U1 (socket c4) broadcasts [user-status online]
    for U1 again, to c1, c2, c3 and c4. *)
Lemma second_connection_emits_online :
  userSockets scenarioState !! "U1" = Some ["c1"] /\
  length (filter (fun d => isOnlineStatusFor "U1" d = true)
            (snd (connect (E := demoCollab) scenarioState "c4" (Some "t1")))) = 4.
Proof. split; vm_compute; reflexivity. Qed.

(** ** Group rooms *)

(** C6: a join-group command whose membership check fails (no such group,
    or the user not among its members) leaves the server unchanged and
    emits exactly one error event, to the requesting socket. *)
Theorem joinGroup_denied_no_change `{E : Collaborators} :
  forall s sid groupId userId,
    sockets s !! sid = Some userId ->
    (findGroup groupId = None \/
     exists members, findGroup groupId = Some members /\ userId ∉ members) ->
    exists msg, onJoinGroup s sid groupId = (s, [(sid, ErrorEvent msg)]).
Proof.
  intros s sid groupId userId Hs Hg. unfold onJoinGroup. rewrite Hs.
  case_decide; [by eexists|].
  destruct (isValidObjectId groupId); simpl; [|by eexists].
  destruct Hg as [-> | (members & -> & Hm)]; [by eexists|].
  rewrite decide_True by done. by eexists.
Qed.

Lemma joinGroup_denied_no_change_witness :
  sockets scenarioState !! "c1" = Some "U1" /\
  findGroup (Collaborators := demoCollab) "G2" = None /\
  onJoinGroup (E := demoCollab) scenarioState "c1" "G2"
    = (scenarioState, [("c1", ErrorEvent "Group not found")]).
Proof.
  assert (H1 : sockets scenarioState !! "c1" = Some "U1") by reflexivity.
  assert (H2 : findGroup (Collaborators := demoCollab) "G2" = None) by reflexivity.
  split; [exact H1|]. split; [exact H2|].
  destruct (joinGroup_denied_no_change (E := demoCollab) scenarioState "c1" "G2" "U1"
              H1 (or_introl H2)) as [msg Hj].
  rewrite Hj. vm_compute in Hj. injection Hj as <-. reflexivity.
Defined.

Lemma leaveRoom_absent (rs : gmap string (list string)) room sid :
  sid ∉ roomMembers rs room ->
  forall r, roomMembers (leaveRoom rs room sid) r = roomMembers rs r.
Proof.
  unfold leaveRoom, roomMembers. intros Hn r.
  destruct (rs !! room) as [l|] eqn:Hl; [|done]. simpl in Hn.
  rewrite filter_all_id by (intros x Hx ->; done).
  destruct l as [|y l'].
  - destruct (decide (room = r)) as [->|Hne].
    + by rewrite lookup_delete_eq, Hl.
    + by rewrite lookup_delete_ne.
  - by rewrite insert_id.
Qed.

(** C9 (amended): a leave-group command from a socket that is not in the
    group's room leaves every room's membership (and the registry)
    unchanged, but still sends [user-left-group] to every socket in that
    room. *)
Theorem leaveGroup_not_joined `{E : Collaborators} :
  forall s sid groupId userId,
    sockets s !! sid = Some userId ->
    sid ∉ roomMembers (rooms s) (groupRoom groupId) ->
    let '(s', out) := onLeaveGroup s sid groupId in
    (forall r, roomMembers (rooms s') r = roomMembers (rooms s) r) /\
    userSockets s' = userSockets s /\ sockets s' = sockets s /\
    out = deliverTo (roomMembers (rooms s) (groupRoom groupId))
                    (UserLeftGroup userId groupId).
Proof.
  intros s sid groupId userId Hs Hn. unfold onLeaveGroup. rewrite Hs. simpl.
  split; [by apply leaveRoom_absent|]. split; [done|]. split; [done|].
  unfold socketTo. simpl. rewrite leaveRoom_absent by done.
  rewrite filter_all_id by (intros x Hx ->; done). done.
Qed.

Lemma leaveGroup_not_joined_witness :
  sockets scenarioState !! "c3" = Some "U3" /\
  ("c3" ∉ roomMembers (rooms scenarioState) (groupRoom "G1")) /\
  snd (onLeaveGroup scenarioState "c3" "G1")
    = [("c1", UserLeftGroup "U3" "G1"); ("c2", UserLeftGroup "U3" "G1")].
Proof.
  assert (H1 : sockets scenarioState !! "c3" = Some "U3") by reflexivity.
  assert (Hr : roomMembers (rooms scenarioState) (groupRoom "G1") = ["c1"; "c2"])
    by reflexivity.
  assert (H2 : "c3" ∉ roomMembers (rooms scenarioState) (groupRoom "G1"))
    by (rewrite Hr; set_solver).
  split; [exact H1|]. split; [exact H2|].
  pose proof (leaveGroup_not_joined (E := demoCollab) scenarioState "c3" "G1" "U3" H1 H2) as H.
  destruct (onLeaveGroup scenarioState "c3" "G1") as [s' out].
  destruct H as (_ & _ & _ & ->). simpl. rewrite Hr. reflexivity.
Defined.

(** C9 counterexample: c3 never joined the room of G1, yet its leave-group
    command sends [user-left-group] to c1 and c2. *)
Lemma leaveGroup_not_joined_notifies :
  roomMembers (rooms scenarioState) (groupRoom "G1") = ["c1"; "c2"] /\
  snd (onLeaveGroup scenarioState "c3" "G1") <> [].
Proof. split; vm_compute; [reflexivity|discriminate]. Qed.

(** ** Read receipts *)

Lemma addToSet_elem l u x : x ∈ addToSet l u <-> x ∈ l \/ x = u.
Proof.
  unfold addToSet. case_decide.
  - split; [by left|]. intros [?| ->]; done.
  - rewrite elem_of_app, list_elem_of_singleton. done.
Qed.

Lemma addToSet_NoDup l u : NoDup l -> NoDup (addToSet l u).
Proof.
  unfold addToSet. intros Hnd. case_decide as Hu; [done|].
  apply NoDup_app. split; [done|]. split; [|apply NoDup_singleton].
  intros x Hx ->%list_elem_of_singleton. done.
Qed.

Lemma markOne_twice u ids t1 t2 m :
  markOne u ids t2 (markOne u ids t1 m) = markOne u ids t1 m.
Proof.
  unfold markOne.
  destruct (bool_decide (m_id m ∈ ids) && bool_decide (u ∉ readBy m)) eqn:Hc; simpl.
  - rewrite (bool_decide_eq_false_2 (u ∉ addToSet (readBy m) u))
      by (rewrite addToSet_elem; intros Hn; apply Hn; by right).
    rewrite andb_false_r. reflexivity.
  - rewrite Hc. reflexivity.
Qed.

(** C10 (amended): [markMessagesAsRead] is idempotent (a second call with
    the same arguments, at any time, changes nothing); on each message it
    keeps id, content, sender, receiver, group and creation time, only adds
    [userId] to [readBy] (keeping every reader, and no duplicate when there
    was none), and it leaves a message untouched or sets its [updatedAt] to
    the time of the call (the schema's timestamps). *)
Theorem markMessagesAsRead_idempotent_monotone :
  forall ms u ids t1 t2,
    markMessagesAsRead (markMessagesAsRead ms u ids t1) u ids t2
      = markMessagesAsRead ms u ids t1 /\
    forall i m, ms !! i = Some m ->
      exists m', markMessagesAsRead ms u ids t1 !! i = Some m' /\
        m_id m' = m_id m /\ content m' = content m /\ sender m' = sender m /\
        receiver m' = receiver m /\ group m' = group m /\ createdAt m' = createdAt m /\
        (forall x, x ∈ readBy m' <-> x ∈ readBy m \/ (x = u /\ m_id m ∈ ids)) /\
        (NoDup (readBy m) -> NoDup (readBy m')) /\
        (m' = m \/ (m_id m ∈ ids /\ (u ∉ readBy m) /\ updatedAt m' = t1)).
Proof.
  intros ms u ids t1 t2. split.
  - unfold markMessagesAsRead. rewrite <- list_fmap_compose.
    apply list_fmap_ext. intros i x _. apply markOne_twice.
  - intros i m Hm. unfold markMessagesAsRead. rewrite list_lookup_fmap, Hm.
    eexists. split; [reflexivity|]. unfold markOne.
    destruct (bool_decide (m_id m ∈ ids)) eqn:Hi;
      destruct (bool_decide (u ∉ readBy m)) eqn:Hr; simpl;
      apply bool_decide_eq_true_1 in Hi || apply bool_decide_eq_false_1 in Hi;
      apply bool_decide_eq_true_1 in Hr || apply bool_decide_eq_false_1 in Hr.
    + do 6 (split; [done|]). split; [|split].
      * intros x. rewrite addToSet_elem. naive_solver.
      * apply addToSet_NoDup.
      * right. done.
    + do 6 (split; [done|]). split; [|split; [done|by left]].
      intros x. split; [by left|]. intros [?|[-> _]]; [done|].
      destruct (decide (u ∈ readBy m)); [done|contradiction].
    + do 6 (split; [done|]). split; [|split; [done|by left]].
      intros x. naive_solver.
    + do 6 (split; [done|]). split; [|split; [done|by left]].
      intros x. naive_solver.
Qed.

(** C10 counterexample: marking a message read also changes its
    [updatedAt] field. *)
Lemma markMessagesAsRead_sets_updatedAt :
  markMessagesAsRead [unreadMessage] "U2" [0] 5
    = [mkMessage 0 "hi" "U1" (Some "U2") None ["U1"; "U2"] 0 5] /\
  updatedAt unreadMessage = 0%Z.
Proof. split; vm_compute; reflexivity. Qed.

Lemma markMessagesAsRead_idempotent_monotone_witness :
  [unreadMessage] !! 0 = Some unreadMessage /\
  exists m', markMessagesAsRead [unreadMessage] "U2" [0] 5 !! 0 = Some m' /\
             "U2" ∈ readBy m'.
Proof.
  assert (H0 : [unreadMessage] !! 0 = Some unreadMessage) by reflexivity.
  split; [exact H0|].
  destruct (proj2 (markMessagesAsRead_idempotent_monotone [unreadMessage] "U2" [0] 5 5)
              0 unreadMessage H0) as (m' & Hm' & _ & _ & _ & _ & _ & _ & Hread & _).
  exists m'. split; [exact Hm'|]. apply Hread. right. split; [reflexivity|].
  apply list_elem_of_singleton. reflexivity.
Defined.

(** ** Handshake authentication *)

Section Admission.
Context `{E : Collaborators}.

Lemma deliverTo_elem ids ev t ev' : (t, ev') ∈ deliverTo ids ev -> t ∈ ids.
Proof.
  unfold deliverTo. rewrite list_elem_of_fmap. intros [y [Hy Hin]]. by injection Hy as -> _.
Qed.

Lemma keys_elem {A} (m : gmap string A) t : t ∈ (map_to_list m).*1 -> is_Some (m !! t).
Proof.
  rewrite list_elem_of_fmap. intros [[k v] [-> Hin]]. apply elem_of_map_to_list in Hin.
  simpl. by exists v.
Qed.

Lemma roomMembers_elem rs r t : t ∈ roomMembers rs r -> exists l, rs !! r = Some l /\ t ∈ l.
Proof.
  unfold roomMembers. destruct (rs !! r) as [l|]; simpl; [by exists l|].
  intros H. by apply elem_of_nil in H.
Qed.

Lemma ioTo_target s a r e t ev : (t, ev) ∈ ioTo s r e -> reachableTarget s a t.
Proof.
  unfold ioTo. intros H%deliverTo_elem. apply roomMembers_elem in H as [l [Hl Ht]].
  right; right. by exists r, l.
Qed.

Lemma socketTo_target s a x r e t ev : (t, ev) ∈ socketTo s x r e -> reachableTarget s a t.
Proof.
  unfold socketTo. intros H%deliverTo_elem. apply list_elem_of_filter in H as [_ H].
  apply roomMembers_elem in H as [l [Hl Ht]]. right; right. by exists r, l.
Qed.

Lemma ioEmit_target s a e t ev : (t, ev) ∈ ioEmit s e -> reachableTarget s a t.
Proof. unfold ioEmit. intros H%deliverTo_elem%keys_elem. by right; left. Qed.

Ltac solve_target :=
  repeat match goal with
  | H : _ ∈ _ ++ _ |- _ => apply elem_of_app in H as [H|H]
  | H : _ ∈ [] |- _ => by apply elem_of_nil in H
  | H : (_, _) ∈ [(_, _)] |- _ =>
      apply list_elem_of_singleton in H; injection H as -> _; by left
  | H : _ ∈ ioTo _ _ _ |- _ => by eapply ioTo_target
  | H : _ ∈ socketTo _ _ _ _ |- _ => by eapply socketTo_target
  | H : _ ∈ ioEmit _ _ |- _ => by eapply ioEmit_target
  end.

(** Every event of a step goes to the acting socket, to a connected socket
    or to a member of a room, in the state after the step. *)
Lemma step_targets s now a act s' out :
  step s now a act = (s', out) ->
  forall t ev, (t, ev) ∈ out -> reachableTarget s' a t.
Proof.
  intros Hs t ev Hin.
  destruct act; simpl in Hs;
    unfold connect, onConnection, onSendMessage, onJoinGroup, onLeaveGroup,
      onTyping, onMarkMessagesRead, onDisconnect in Hs;
    repeat case_match; simplify_eq;
    unfold emitUserStatus, emitDirectMessage, emitGroupMessage in *;
    solve_target.
Qed.

Lemma joinRoom_absent rs room x sid :
  absentFrom rs sid -> x <> sid -> absentFrom (joinRoom rs room x) sid.
Proof.
  unfold joinRoom, roomMembers. intros Hrs Hx k l Hk.
  case_decide; [eauto|].
  destruct (decide (room = k)) as [->|Hne].
  - rewrite lookup_insert_eq in Hk. injection Hk as <-.
    rewrite elem_of_app, list_elem_of_singleton. intros [Hin| ->]; [|done].
    destruct (rs !! k) as [l0|] eqn:Hl0; simpl in Hin;
      [by apply (Hrs k l0)|by apply elem_of_nil in Hin].
  - rewrite lookup_insert_ne in Hk by done. eauto.
Qed.

Lemma leaveRoom_absentFrom rs room x sid :
  absentFrom rs sid -> absentFrom (leaveRoom rs room x) sid.
Proof.
  unfold leaveRoom. intros Hrs k l Hk.
  destruct (rs !! room) as [l0|] eqn:Hl0; [|eauto].
  destruct (decide (room = k)) as [->|Hne].
  - destruct (filter (fun y => y <> x) l0) as [|y ys] eqn:Hf.
    + by rewrite lookup_delete_eq in Hk.
    + rewrite lookup_insert_eq in Hk. injection Hk as <-. rewrite <- Hf.
      intros [_ Hin]%list_elem_of_filter. by apply (Hrs k l0).
  - destruct (filter (fun y => y <> x) l0);
      [rewrite lookup_delete_ne in Hk by done|rewrite lookup_insert_ne in Hk by done];
      eauto.
Qed.

Lemma leaveAll_absentFrom rs x sid :
  absentFrom rs sid -> absentFrom (leaveAll rs x) sid.
Proof.
  unfold leaveAll. intros Hrs k l Hk. apply lookup_omap_Some in Hk as [l0 [Hf Hl0]].
  destruct (filter (fun y => y <> x) l0) as [|y ys] eqn:Heq; [discriminate|].
  injection Hf as <-. rewrite <- Heq.
  intros [_ Hin]%list_elem_of_filter. by apply (Hrs k l0).
Qed.

Lemma registerSocket_absent us u x sid :
  absentFrom us sid -> x <> sid -> absentFrom (registerSocket us u x) sid.
Proof.
  unfold registerSocket. intros Hus Hx k l Hk.
  destruct (decide (u = k)) as [->|Hne].
  - rewrite lookup_insert_eq in Hk. injection Hk as <-.
    rewrite elem_of_app, list_elem_of_singleton. intros [Hin| ->]; [|done].
    destruct (us !! k) as [l0|] eqn:Hl0; simpl in Hin;
      [by apply (Hus k l0)|by apply elem_of_nil in Hin].
  - rewrite lookup_insert_ne in Hk by done. eauto.
Qed.

Lemma unregisterSocket_absent_pres us u x sid us' b :
  absentFrom us sid -> unregisterSocket us u x = (us', b) -> absentFrom us' sid.
Proof.
  unfold unregisterSocket. intros Hus Heq k l Hk.
  case_decide; injection Heq as <- _.
  - destruct (decide (u = k)) as [->|Hne].
    + rewrite lookup_insert_eq in Hk. injection Hk as <-.
      intros [_ Hin]%list_elem_of_filter.
      destruct (us !! k) as [l0|] eqn:Hl0; simpl in Hin;
        [by apply (Hus k l0)|by apply elem_of_nil in Hin].
    + rewrite lookup_insert_ne in Hk by done. eauto.
  - destruct (decide (u = k)) as [->|Hne].
    + by rewrite lookup_delete_eq in Hk.
    + rewrite lookup_delete_ne in Hk by done. eauto.
Qed.

(** A step of another socket never brings [sid] into the presence state. *)
Lemma step_keeps_notAdmitted s now a act sid :
  notAdmitted s sid -> a <> sid -> notAdmitted (fst (step s now a act)) sid.
Proof.
  intros (Hs & Hu & Hr) Ha.
  destruct (step s now a act) as [s' out] eqn:Hstep. simpl.
  destruct act; simpl in Hstep;
    unfold connect, onConnection, onSendMessage, onJoinGroup, onLeaveGroup,
      onTyping, onMarkMessagesRead, onDisconnect in Hstep;
    repeat case_match; simplify_eq; unfold notAdmitted; simpl;
    repeat split;
    repeat match goal with
      | |- <[_ := _]> _ !! _ = None => rewrite lookup_insert_ne by done
      | |- delete _ _ !! _ = None => rewrite lookup_delete_None; by right
      | |- absentFrom (joinRoom _ _ _) _ => apply joinRoom_absent
      | |- absentFrom (leaveRoom _ _ _) _ => apply leaveRoom_absentFrom
      | |- absentFrom (leaveAll _ _) _ => apply leaveAll_absentFrom
      | |- absentFrom (registerSocket _ _ _) _ => apply registerSocket_absent
      | H : unregisterSocket _ _ _ = (?us', _) |- absentFrom ?us' _ =>
          eapply unregisterSocket_absent_pres; [|exact H]
      end;
    try done.
Qed.

(** A socket that is not admitted gets every command ignored, and its own
    failed handshake changes nothing. *)
Lemma step_blocked s now sid act :
  notAdmitted s sid ->
  (forall tok, act = Connect tok -> authenticate tok = None) ->
  step s now sid act = (s, []).
Proof.
  intros (Hs & _ & _) Hauth.
  destruct act; simpl;
    unfold connect, onSendMessage, onJoinGroup, onLeaveGroup, onTyping,
      onMarkMessagesRead, onDisconnect;
    try rewrite Hs; try done.
  by rewrite (Hauth token eq_refl).
Qed.

End Admission.

(** C5: if every handshake of socket [sid] fails authentication ([token]
    absent or empty, [jwt.verify] failing, or no such user) and [sid] starts
    outside the presence state, then along any interleaving with other
    sockets [sid] never enters the connected sockets, the registry or a
    room, none of its steps (handshake or later command) has any effect or
    emits anything, and no event is ever delivered to it. *)
Theorem failed_handshake_never_admitted `{E : Collaborators} :
  forall tr s sid,
    notAdmitted s sid ->
    (forall i tok, i ∈ tr -> actor i = sid -> act i = Connect tok ->
                   authenticate tok = None) ->
    notAdmitted (fst (run s tr)) sid /\
    (forall a out, (a, out) ∈ snd (run s tr) -> a = sid -> out = []) /\
    (forall a out ev, (a, out) ∈ snd (run s tr) -> (sid, ev) ∉ out).
Proof.
  induction tr as [|i tr IH]; intros s sid Hna Hauth; simpl.
  - split; [done|]. split.
    + intros a out Hin. by apply elem_of_nil in Hin.
    + intros a out ev Hin. by apply elem_of_nil in Hin.
  - destruct (step s (at_time i) (actor i) (act i)) as [s1 out1] eqn:Hstep.
    assert (Hna1 : notAdmitted s1 sid /\
                   (actor i = sid -> out1 = []) /\ (forall ev, (sid, ev) ∉ out1)).
    { destruct (decide (actor i = sid)) as [Heq|Hne].
      - rewrite Heq in Hstep. rewrite step_blocked in Hstep.
        + injection Hstep as <- <-. split; [done|]. split; [done|].
          intros ev Hin. by apply elem_of_nil in Hin.
        + exact Hna.
        + intros tok Htok. apply (Hauth i); [set_solver|done|done].
      - pose proof (step_keeps_notAdmitted s (at_time i) (actor i) (act i) sid Hna Hne)
          as Hk.
        rewrite Hstep in Hk. simpl in Hk. split; [done|]. split; [done|].
        intros ev Hin.
        destruct (step_targets _ _ _ _ _ _ Hstep sid ev Hin)
          as [Ha | [[x Hx] | (r & l & Hr & Hl)]].
        + by apply Hne.
        + destruct Hk as (Hs1 & _ & _). by rewrite Hs1 in Hx.
        + destruct Hk as (_ & _ & Hr1). by apply (Hr1 r l). }
    destruct Hna1 as (Hna1 & Hself & Hnot).
    destruct (run s1 tr) as [s2 log] eqn:Hrun. simpl.
    assert (Hauth' : forall j tok, j ∈ tr -> actor j = sid -> act j = Connect tok ->
                                   authenticate tok = None)
      by (intros j tok Hj; apply Hauth; set_solver).
    destruct (IH s1 sid Hna1 Hauth') as (IH1 & IH2 & IH3).
    rewrite Hrun in IH1, IH2, IH3. simpl in IH1, IH2, IH3.
    split; [done|]. split.
    + intros a out Hin Ha. apply elem_of_cons in Hin as [Hin|Hin]; [|by eapply IH2].
      injection Hin as -> ->. by apply Hself.
    + intros a out ev Hin. apply elem_of_cons in Hin as [Hin|Hin]; [|by eapply IH3].
      injection Hin as -> ->. apply Hnot.
Qed.

Lemma failed_handshake_never_admitted_witness :
  notAdmitted emptyServer "c9" /\
  (forall i tok, i ∈ badHandshakeTrace -> actor i = "c9" -> act i = Connect tok ->
                 authenticate (E := demoCollab) tok = None) /\
  notAdmitted (fst (run (E := demoCollab) emptyServer badHandshakeTrace)) "c9".
Proof.
  assert (H1 : notAdmitted emptyServer "c9").
  { split; [reflexivity|]. split; intros k l Hk; simpl in Hk; by rewrite lookup_empty in Hk. }
  assert (H2 : forall i tok, i ∈ badHandshakeTrace -> actor i = "c9" ->
                 act i = Connect tok -> authenticate (E := demoCollab) tok = None).
  { intros i tok Hi Ha Hc. unfold badHandshakeTrace in Hi.
    repeat (apply elem_of_cons in Hi as [->|Hi]; [simpl in Ha, Hc; try discriminate|]).
    - injection Hc as <-. reflexivity.
    - by apply elem_of_nil in Hi. }
  split; [exact H1|]. split; [exact H2|].
  exact (proj1 (failed_handshake_never_admitted (E := demoCollab)
                  badHandshakeTrace emptyServer "c9" H1 H2)).
Defined.

(* ================================================================== *)
(** * Further properties of the MessageService *)


Lemma find_message_spec (ms : list Message) id m :
  findMessageById ms id = Some m -> m ∈ ms /\ m_id m = id.
Proof.
  unfold findMessageById. intros Hf.
  apply List.find_some in Hf as [Hin Hb]. split.
  - by apply list_elem_of_In.
  - by apply bool_decide_eq_true_1 in Hb.
Qed.

(** A successful [deleteMessage] was asked by the sender of a stored
    message with that id; afterwards exactly the messages with another id
    remain. *)
Theorem deleteMessage_only_sender ms id u ms' :
  deleteMessage ms id u = inr ms' ->
  (exists m, m ∈ ms /\ m_id m = id /\ sender m = u) /\
  (forall x, x ∈ ms' <-> x ∈ ms /\ m_id x <> id).
Proof.
  unfold deleteMessage.
  destruct (findMessageById ms id) as [m|] eqn:Hf; [|discriminate].
  case_decide as Hs; [discriminate|]. intros [= <-].
  destruct (find_message_spec ms id m Hf) as [Hin Hid]. split.
  - exists m. split; [done|]. split; [done|].
    destruct (decide (sender m = u)); [done|contradiction].
  - intros x. rewrite list_elem_of_filter. naive_solver.
Qed.

(** When the stored message with that id was sent by someone else,
    [deleteMessage] refuses with "You can only delete your own messages". *)
Theorem deleteMessage_other_sender_refused ms id u m :
  m ∈ ms -> m_id m = id -> sender m <> u ->
  (forall m', m' ∈ ms -> m_id m' = id -> m' = m) ->
  deleteMessage ms id u = inl "You can only delete your own messages".
Proof.
  intros Hin Hid Hs Huniq. unfold deleteMessage.
  destruct (findMessageById ms id) as [m'|] eqn:Hf.
  - destruct (find_message_spec ms id m' Hf) as [Hin' Hid'].
    rewrite (Huniq m' Hin' Hid'), decide_True by done. done.
  - exfalso. unfold findMessageById in Hf.
    eapply List.find_none in Hf; [|by apply list_elem_of_In].
    rewrite bool_decide_eq_true_2 in Hf by done. discriminate.
Qed.

Lemma markOne_fields u ids t m :
  sender (markOne u ids t m) = sender m /\ receiver (markOne u ids t m) = receiver m /\
  group (markOne u ids t m) = group m /\ m_id (markOne u ids t m) = m_id m /\
  (u ∈ readBy (markOne u ids t m) <-> u ∈ readBy m \/ m_id m ∈ ids).
Proof.
  unfold markOne.
  destruct (decide (m_id m ∈ ids)) as [Hi|Hi], (decide (u ∈ readBy m)) as [Hr|Hr].
  - rewrite (bool_decide_eq_false_2 (u ∉ readBy m)) by tauto.
    rewrite andb_false_r. tauto.
  - rewrite bool_decide_eq_true_2 by done. rewrite bool_decide_eq_true_2 by done.
    simpl. rewrite addToSet_elem. tauto.
  - rewrite bool_decide_eq_false_2 by done. simpl. tauto.
  - rewrite bool_decide_eq_false_2 by done. simpl. tauto.
Qed.

Lemma filter_fmap_length {A B} (P : B -> Prop) `{forall x, Decision (P x)}
    (Q : A -> Prop) `{forall x, Decision (Q x)} (f : A -> B) (l : list A) :
  (forall x, P (f x) <-> Q x) -> length (filter P (f <$> l)) = length (filter Q l).
Proof.
  intros HPQ. induction l as [|a l IH]; [done|]. rewrite fmap_cons, !filter_cons.
  destruct (decide (P (f a))) as [Hp|Hp], (decide (Q a)) as [Hq|Hq]; simpl.
  - by rewrite IH.
  - exfalso. by apply Hq, HPQ.
  - exfalso. by apply Hp, HPQ.
  - done.
Qed.

(** After [markMessagesAsRead ms u ids], the unread direct messages of
    [u] from [o] are exactly those that were unread and whose id was not
    in [ids]. *)
Theorem unreadDirect_after_mark ms u o ids t :
  getUnreadDirectMessageCount (markMessagesAsRead ms u ids t) u o =
  length (filter (fun m => (sender m = o /\ receiver m = Some u /\ u ∉ readBy m) /\
                           m_id m ∉ ids) ms).
Proof.
  unfold getUnreadDirectMessageCount, markMessagesAsRead.
  apply filter_fmap_length. intros m.
  destruct (markOne_fields u ids t m) as (-> & -> & _ & _ & Hr).
  rewrite Hr. tauto.
Qed.

(** The same for group messages: [markMessagesAsRead] lowers the unread
    count of a group by the unread messages whose id was listed. *)
Theorem unreadGroup_after_mark ms u g ids t :
  getUnreadGroupMessageCount (markMessagesAsRead ms u ids t) u g =
  length (filter (fun m => (group m = Some g /\ sender m <> u /\ u ∉ readBy m) /\
                           m_id m ∉ ids) ms).
Proof.
  unfold getUnreadGroupMessageCount, markMessagesAsRead.
  apply filter_fmap_length. intros m.
  destruct (markOne_fields u ids t m) as (-> & _ & -> & _ & Hr).
  rewrite Hr. tauto.
Qed.

Lemma sendMessage_ok_doc `{E : Collaborators} ms now s c r g m ms' :
  sendMessage ms now s c r g = inr (m, ms') ->
  m = mkMessage (length ms) c s r g [s] now now /\ createMessageDoc ms m = Some ms'.
Proof.
  unfold sendMessage.
  destruct r as [rid|], g as [gid|]; try discriminate.
  - destruct (userExists rid); [|discriminate]. simpl.
    destruct (createMessageDoc _ _) eqn:Hc; [|discriminate]. by intros [= <- ->].
  - destruct (findGroup gid) as [members|]; [|discriminate].
    case_decide; [|discriminate].
    destruct (createMessageDoc _ _) eqn:Hc; [|discriminate]. by intros [= <- ->].
Qed.


(** A group message from [s] to [g], stored by appending it, adds one to
    the unread count of [g] of every user other than [s] and leaves the
    sender's count unchanged. *)
Theorem sendGroup_unread_counts `{E : Collaborators} ms now s c g m ms' :
  sendMessage ms now s c None (Some g) = inr (m, ms') ->
  ms' = ms ++ [m] ->
  getUnreadGroupMessageCount ms' s g = getUnreadGroupMessageCount ms s g /\
  (forall u, u <> s ->
   getUnreadGroupMessageCount ms' u g = S (getUnreadGroupMessageCount ms u g)).
Proof.
  intros Hs ->. destruct (sendMessage_ok_doc _ _ _ _ _ _ _ _ Hs) as [-> _].
  unfold getUnreadGroupMessageCount. split.
  - rewrite filter_app, length_app, filter_cons_False; simpl; [lia|]. tauto.
  - intros u Hu. rewrite filter_app, length_app. rewrite filter_cons_True; simpl; [lia|].
    split; [done|]. split; [congruence|]. rewrite list_elem_of_singleton. congruence.
Qed.

Lemma sortNewestFirst_perm l : sortNewestFirst l ≡ₚ l.
Proof. apply merge_sort_Permutation. Qed.

Lemma sortNewestFirst_sorted l : StronglySorted newerOrSame (sortNewestFirst l).
Proof. apply StronglySorted_merge_sort; apply _. Qed.

Lemma paginate_sound l p lim msgs hm :
  paginate l p lim = Some (msgs, hm) ->
  (forall x, x ∈ msgs -> x ∈ l) /\ Sorted (fun a b => createdAt a <= createdAt b)%Z msgs.
Proof.
  unfold paginate. case_decide; [discriminate|]. intros [= <- _].
  set (n := Z.to_nat ((p - 1) * lim)).
  assert (Hd : StronglySorted newerOrSame (drop n (sortNewestFirst l))).
  { apply (StronglySorted_app_1_r newerOrSame (take n (sortNewestFirst l))).
    rewrite take_drop. apply sortNewestFirst_sorted. }
  assert (Hs : forall k, StronglySorted newerOrSame (take k (drop n (sortNewestFirst l)))).
  { intros k. apply (StronglySorted_app_1_l newerOrSame _ (drop k (drop n (sortNewestFirst l)))).
    by rewrite take_drop. }
  split.
  - intros x. rewrite elem_of_reverse. intros Hx.
    rewrite <- (sortNewestFirst_perm l), <- (take_drop n (sortNewestFirst l)).
    apply elem_of_app. right.
    case_decide; [done|]. apply elem_of_take in Hx as [i [Hi _]].
    by eapply list_elem_of_lookup_2.
  - apply (Sorted_reverse newerOrSame). apply StronglySorted_Sorted.
    case_decide; [done|apply Hs].
Qed.

Lemma paginate_page l p lim msgs hm :
  (1 <= p)%Z -> (1 <= lim)%Z -> paginate l p lim = Some (msgs, hm) ->
  length msgs <= Z.to_nat lim /\ (hm = true <-> (p * lim < Z.of_nat (length l))%Z).
Proof.
  intros Hp Hl. unfold paginate.
  rewrite decide_False by nia. rewrite decide_False by lia. intros [= <- <-].
  rewrite length_reverse, length_take, length_drop.
  assert (Hn : length (sortNewestFirst l) = length l)
    by apply Permutation_length, sortNewestFirst_perm.
  rewrite Hn, Z.abs_eq by lia. rewrite bool_decide_eq_true.
  assert (Hk : (0 <= (p - 1) * lim)%Z) by nia.
  assert (Hpl : (p * lim = (p - 1) * lim + lim)%Z) by ring.
  rewrite Hpl. generalize dependent ((p - 1) * lim)%Z. intros k Hk _. lia.
Qed.

Lemma paginate_no_limit l p :
  exists msgs, paginate l p 0 = Some (msgs, false) /\ msgs ≡ₚ l.
Proof.
  unfold paginate. rewrite decide_False by lia. rewrite decide_True by done.
  replace ((p - 1) * 0)%Z with 0%Z by ring. change (Z.to_nat 0) with 0. rewrite drop_0.
  exists (reverse (sortNewestFirst l)). split.
  - do 2 f_equal. apply bool_decide_eq_false_2.
    rewrite (Permutation_length (sortNewestFirst_perm l)). lia.
  - rewrite reverse_Permutation. apply sortNewestFirst_perm.
Qed.

(** A page of [getDirectMessages] with [page >= 1] and [limit >= 1]: its
    messages are stored messages of the conversation, at most [limit] of
    them, oldest first; [totalCount] is the size of the conversation and
    [hasMore] holds exactly when [page * limit < totalCount]. *)
Theorem getDirectMessages_page `{E : Collaborators} ms u o p lim msgs total hm :
  (1 <= p)%Z -> (1 <= lim)%Z ->
  getDirectMessages ms u o p lim = inr (msgs, total, hm) ->
  total = length (filter (inConversation u o) ms) /\
  (forall m, m ∈ msgs -> m ∈ ms /\ inConversation u o m) /\
  length msgs <= Z.to_nat lim /\
  (hm = true <-> (p * lim < Z.of_nat total)%Z) /\
  Sorted (fun a b => createdAt a <= createdAt b)%Z msgs.
Proof.
  intros Hp Hl. unfold getDirectMessages.
  destruct (userExists o); [|discriminate]. simpl.
  destruct (paginate _ p lim) as [[msgs' hm']|] eqn:Hpg; [|discriminate].
  intros [= <- <- <-].
  destruct (paginate_sound _ _ _ _ _ Hpg) as [Hin Hs].
  destruct (paginate_page _ _ _ _ _ Hp Hl Hpg) as [Hlen Hhm].
  split; [done|]. split; [|done].
  intros m Hm. apply Hin, list_elem_of_filter in Hm. tauto.
Qed.

(** [getDirectMessages] with [limit = 0] ([.limit(0)]: no limit) returns
    the whole conversation, whatever the page, with [hasMore = false]. *)
Theorem getDirectMessages_limit0 `{E : Collaborators} ms u o p :
  userExists o = true ->
  exists msgs, getDirectMessages ms u o p 0 =
                 inr (msgs, length (filter (inConversation u o) ms), false) /\
               msgs ≡ₚ filter (inConversation u o) ms.
Proof.
  intros Hu. unfold getDirectMessages. rewrite Hu. simpl.
  destruct (paginate_no_limit (filter (inConversation u o) ms) p) as (msgs & -> & Hp).
  by exists msgs.
Qed.

(** With a positive limit, a page number below 1 gives a negative skip,
    which the database rejects. *)
Theorem getDirectMessages_page_below_one `{E : Collaborators} ms u o p lim :
  userExists o = true -> (p < 1)%Z -> (0 < lim)%Z ->
  getDirectMessages ms u o p lim = inl SkipError.
Proof.
  intros Hu Hp Hl. unfold getDirectMessages, paginate. rewrite Hu. simpl.
  rewrite decide_True by nia. done.
Qed.

(** [getGroupMessages] answers only members of an existing group, and
    only with messages of that group, oldest first. *)
Theorem getGroupMessages_members_only `{E : Collaborators} ms u g p lim msgs total hm :
  getGroupMessages ms u g p lim = inr (msgs, total, hm) ->
  (exists members, findGroup g = Some members /\ u ∈ members) /\
  total = length (filter (fun m => group m = Some g) ms) /\
  (forall m, m ∈ msgs -> m ∈ ms /\ group m = Some g) /\
  Sorted (fun a b => createdAt a <= createdAt b)%Z msgs.
Proof.
  unfold getGroupMessages.
  destruct (findGroup g) as [members|] eqn:Hg; [|discriminate].
  case_decide as Hm; [discriminate|].
  destruct (paginate _ p lim) as [[msgs' hm']|] eqn:Hpg; [|discriminate].
  intros [= <- <- <-].
  destruct (paginate_sound _ _ _ _ _ Hpg) as [Hin Hs].
  split; [exists members; split; [done|]; destruct (decide (u ∈ members)); tauto|].
  split; [done|]. split; [|done].
  intros m Hx. apply Hin, list_elem_of_filter in Hx. tauto.
Qed.

Lemma deleteMessage_only_sender_witness :
  deleteMessage demoStore 0 "U1" = inr [msgB; msgC] /\
  ((exists m, m ∈ demoStore /\ m_id m = 0 /\ sender m = "U1") /\
   (forall x, x ∈ [msgB; msgC] <-> x ∈ demoStore /\ m_id x <> 0)).
Proof.
  assert (H : deleteMessage demoStore 0 "U1" = inr [msgB; msgC]) by (vm_compute; reflexivity).
  split; [exact H|]. exact (deleteMessage_only_sender demoStore 0 "U1" [msgB; msgC] H).
Defined.

Lemma deleteMessage_other_sender_refused_witness :
  deleteMessage demoStore 0 "U2" = inl "You can only delete your own messages".
Proof.
  apply (deleteMessage_other_sender_refused demoStore 0 "U2" msgA).
  - unfold demoStore. left.
  - reflexivity.
  - unfold msgA. simpl. congruence.
  - intros m' Hm' Hid. unfold demoStore in Hm'.
    rewrite !elem_of_cons in Hm'.
    destruct Hm' as [->|[->|[->|Hn]]];
      [reflexivity|cbv in Hid; congruence|cbv in Hid; congruence|].
    by apply elem_of_nil in Hn.
Defined.


Lemma sendGroup_unread_counts_witness :
  sendMessage (E := demoCollab) demoStore 40 "U1" "y" None (Some "G1") =
    inr (msgE, demoStore ++ [msgE]) /\
  (getUnreadGroupMessageCount (demoStore ++ [msgE]) "U1" "G1" =
     getUnreadGroupMessageCount demoStore "U1" "G1" /\
   (forall u, u <> "U1" ->
    getUnreadGroupMessageCount (demoStore ++ [msgE]) u "G1" =
      S (getUnreadGroupMessageCount demoStore u "G1"))).
Proof.
  assert (H : sendMessage (E := demoCollab) demoStore 40 "U1" "y" None (Some "G1") =
                inr (msgE, demoStore ++ [msgE])) by (vm_compute; reflexivity).
  split; [exact H|].
  exact (sendGroup_unread_counts (E := demoCollab) demoStore 40 "U1" "y" "G1" msgE
           (demoStore ++ [msgE]) H eq_refl).
Defined.

Lemma getDirectMessages_page_witness :
  getDirectMessages (E := demoCollab) demoStore "U1" "U2" 1 1 = inr ([msgB], 2, true) /\
  (2 = length (filter (inConversation "U1" "U2") demoStore) /\
   (forall m, m ∈ [msgB] -> m ∈ demoStore /\ inConversation "U1" "U2" m) /\
   length [msgB] <= Z.to_nat 1 /\
   (true = true <-> (1 * 1 < Z.of_nat 2)%Z) /\
   Sorted (fun a b => createdAt a <= createdAt b)%Z [msgB]).
Proof.
  assert (H : getDirectMessages (E := demoCollab) demoStore "U1" "U2" 1 1 =
                inr ([msgB], 2, true)) by (vm_compute; reflexivity).
  split; [exact H|].
  apply (getDirectMessages_page (E := demoCollab) demoStore "U1" "U2" 1 1 [msgB] 2 true);
    [lia|lia|exact H].
Defined.

Lemma getDirectMessages_limit0_witness :
  exists msgs, getDirectMessages (E := demoCollab) demoStore "U1" "U2" 7 0 =
                 inr (msgs, length (filter (inConversation "U1" "U2") demoStore), false) /\
               msgs ≡ₚ filter (inConversation "U1" "U2") demoStore.
Proof.
  apply (getDirectMessages_limit0 (E := demoCollab)). vm_compute. reflexivity.
Defined.

Lemma getDirectMessages_page_below_one_witness :
  getDirectMessages (E := demoCollab) demoStore "U1" "U2" 0 50 = inl SkipError.
Proof.
  apply (getDirectMessages_page_below_one (E := demoCollab));
    [vm_compute; reflexivity|lia|lia].
Defined.

Lemma getGroupMessages_members_only_witness :
  getGroupMessages (E := demoCollab) demoStore "U2" "G1" 1 50 = inr ([msgC], 1, false) /\
  ((exists members, findGroup (Collaborators := demoCollab) "G1" = Some members /\
                    "U2" ∈ members) /\
   1 = length (filter (fun m => group m = Some "G1") demoStore) /\
   (forall m, m ∈ [msgC] -> m ∈ demoStore /\ group m = Some "G1") /\
   Sorted (fun a b => createdAt a <= createdAt b)%Z [msgC]).
Proof.
  assert (H : getGroupMessages (E := demoCollab) demoStore "U2" "G1" 1 50 =
                inr ([msgC], 1, false)) by (vm_compute; reflexivity).
  split; [exact H|].
  exact (getGroupMessages_members_only (E := demoCollab) demoStore "U2" "G1" 1 50
           [msgC] 1 false H).
Defined.

(* ------------------------------------------------------------------ *)
(** ** The connection state stays consistent *)

Lemma roomsOk_mono rs ss ss' :
  roomsOk rs ss -> (forall c, is_Some (ss !! c) -> is_Some (ss' !! c)) -> roomsOk rs ss'.
Proof. intros H Hm r l Hr. destruct (H r l Hr) as (? & ? & Hc). naive_solver. Qed.

Lemma joinRoom_ok rs ss r c :
  roomsOk rs ss -> is_Some (ss !! c) -> roomsOk (joinRoom rs r c) ss.
Proof.
  unfold joinRoom, roomMembers. intros H Hc. case_decide as Hin; [done|].
  intros r' l Hr'. destruct (decide (r = r')) as [<-|Hne].
  - rewrite lookup_insert_eq in Hr'. injection Hr' as <-.
    assert (Hold : NoDup (default [] (rs !! r)) /\
                   forall x, x ∈ default [] (rs !! r) -> is_Some (ss !! x)).
    { destruct (rs !! r) as [l0|] eqn:Hl0; simpl.
      - by destruct (H r l0 Hl0) as (_ & ? & ?).
      - split; [constructor|]. intros x Hx. by apply elem_of_nil in Hx. }
    destruct Hold as [Hnd Hcs]. split_and!.
    + intros Hnil. by apply app_eq_nil in Hnil as [_ ?].
    + apply NoDup_app. split_and!; [done| |apply NoDup_singleton].
      intros x Hx ->%list_elem_of_singleton. done.
    + intros x. rewrite elem_of_app, list_elem_of_singleton. intros [Hx| ->]; auto.
  - rewrite lookup_insert_ne in Hr' by done. eauto.
Qed.

Lemma leaveRoom_ok rs ss r c : roomsOk rs ss -> roomsOk (leaveRoom rs r c) ss.
Proof.
  unfold leaveRoom. destruct (rs !! r) as [l|] eqn:Hl; [|done].
  intros H r' l' Hr'. destruct (H r l Hl) as (_ & Hnd & Hcs).
  destruct (filter _ l) as [|x xs] eqn:Hf.
  - destruct (decide (r = r')) as [<-|Hne].
    + by rewrite lookup_delete_eq in Hr'.
    + rewrite lookup_delete_ne in Hr' by done. eauto.
  - destruct (decide (r = r')) as [<-|Hne].
    + rewrite lookup_insert_eq in Hr'. injection Hr' as <-. split_and!; [done| |].
      * rewrite <- Hf. by apply NoDup_filter.
      * intros y Hy. rewrite <- Hf in Hy. apply list_elem_of_filter in Hy as [_ Hy]. auto.
    + rewrite lookup_insert_ne in Hr' by done. eauto.
Qed.

Lemma leaveAll_ok rs ss sid : roomsOk rs ss -> roomsOk (leaveAll rs sid) (delete sid ss).
Proof.
  unfold leaveAll. intros H r l Hr. apply lookup_omap_Some in Hr as [l0 [Hf Hl0]].
  destruct (H r l0 Hl0) as (_ & Hnd & Hcs).
  destruct (filter _ l0) as [|x xs] eqn:Hfl; [discriminate|]. injection Hf as <-.
  split_and!; [done| |].
  - rewrite <- Hfl. by apply NoDup_filter.
  - intros c Hc. rewrite <- Hfl in Hc. apply list_elem_of_filter in Hc as [Hne Hc].
    rewrite lookup_delete_ne; [auto|congruence].
Qed.

Lemma regOk_fresh us ss sid v : regOk us ss -> ss !! sid = None -> regOk us (<[sid:=v]> ss).
Proof.
  intros H Hn u l Hu. destruct (H u l Hu) as (Hne & ? & ? & Hc). split_and!; try done.
  intros c Hcl. rewrite lookup_insert_ne; [auto|]. intros Hsc. subst c.
  rewrite (Hc sid Hcl) in Hn. discriminate.
Qed.

Lemma regComplete_fresh_anon us ss sid :
  regComplete us ss -> regComplete us (<[sid:=""]> ss).
Proof.
  intros H c u Hc Hu. destruct (decide (sid = c)) as [<-|Hne].
  - rewrite lookup_insert_eq in Hc. congruence.
  - rewrite lookup_insert_ne in Hc by done. auto.
Qed.

Lemma register_ok us ss sid v :
  regOk us ss -> regComplete us ss -> ss !! sid = None -> v <> "" ->
  regOk (registerSocket us v sid) (<[sid:=v]> ss) /\
  regComplete (registerSocket us v sid) (<[sid:=v]> ss).
Proof.
  intros Hok Hc Hn Hv. unfold registerSocket. split.
  - intros u l Hu. destruct (decide (v = u)) as [<-|Hne].
    + rewrite lookup_insert_eq in Hu. injection Hu as <-.
      assert (Hold : NoDup (default [] (us !! v)) /\
                     forall x, x ∈ default [] (us !! v) -> ss !! x = Some v).
      { destruct (us !! v) as [l0|] eqn:Hl0; simpl.
        - by destruct (Hok v l0 Hl0) as (_ & _ & ? & ?).
        - split; [constructor|]. intros x Hx. by apply elem_of_nil in Hx. }
      destruct Hold as [Hnd Hcs]. split_and!; [done| | |].
      * intros Hnil. by apply app_eq_nil in Hnil as [_ ?].
      * apply NoDup_app. split_and!; [done| |apply NoDup_singleton].
        intros x Hx Hxs%list_elem_of_singleton. subst x. rewrite (Hcs sid Hx) in Hn.
        discriminate.
      * intros x. rewrite elem_of_app, list_elem_of_singleton. intros [Hx|Hx].
        -- rewrite lookup_insert_ne; [auto|]. intros Hsx. subst x.
           rewrite (Hcs sid Hx) in Hn. discriminate.
        -- subst x. by rewrite lookup_insert_eq.
    + rewrite lookup_insert_ne in Hu by done. by apply (regOk_fresh us ss sid v).
  - intros c u Hcu Hu. destruct (decide (sid = c)) as [<-|Hne].
    + rewrite lookup_insert_eq in Hcu. injection Hcu as <-.
      exists (default [] (us !! v) ++ [sid]). rewrite lookup_insert_eq. split; [done|].
      apply elem_of_app. right. by apply list_elem_of_singleton.
    + rewrite lookup_insert_ne in Hcu by done. destruct (Hc c u Hcu Hu) as [l [Hl Hcl]].
      destruct (decide (v = u)) as [<-|Hne'].
      * exists (default [] (us !! v) ++ [sid]). rewrite lookup_insert_eq, Hl. simpl.
        split; [done|]. apply elem_of_app. by left.
      * exists l. by rewrite lookup_insert_ne by done.
Qed.

Lemma regOk_delete_other us ss sid v :
  regOk us ss -> ss !! sid = Some v ->
  forall u l, us !! u = Some l -> u <> v ->
  u <> "" /\ l <> [] /\ NoDup l /\ forall c, c ∈ l -> delete sid ss !! c = Some u.
Proof.
  intros Hok Hs u l Hu Huv. destruct (Hok u l Hu) as (? & ? & ? & Hcs). split_and!; try done.
  intros c Hcl. rewrite lookup_delete_ne; [auto|]. intros Hsc. subst c.
  specialize (Hcs sid Hcl). congruence.
Qed.

Lemma unregister_ok us ss sid v :
  regOk us ss -> regComplete us ss -> ss !! sid = Some v -> v <> "" ->
  regOk (unregisterSocket us v sid).1 (delete sid ss) /\
  regComplete (unregisterSocket us v sid).1 (delete sid ss).
Proof.
  intros Hok Hc Hs Hv. destruct (Hc sid v Hs Hv) as [l0 [Hl0 Hsl0]].
  destruct (Hok v l0 Hl0) as (_ & _ & Hnd0 & Hcs0).
  unfold unregisterSocket. rewrite Hl0. simpl.
  assert (Hl' : forall c, c ∈ filter (fun id => id <> sid) l0 <-> c ∈ l0 /\ c <> sid)
    by (intros c; rewrite list_elem_of_filter; tauto).
  case_decide as Hlen; simpl; split.
  - intros u l Hu. destruct (decide (v = u)) as [<-|Hne].
    + rewrite lookup_insert_eq in Hu. injection Hu as <-. split_and!.
      * done.
      * intros Hnil. rewrite Hnil in Hlen. simpl in Hlen. lia.
      * by apply NoDup_filter.
      * intros c Hcl. apply Hl' in Hcl as [Hc1 Hc2].
        rewrite lookup_delete_ne; [auto|congruence].
    + rewrite lookup_insert_ne in Hu by done. by apply (regOk_delete_other us ss sid v).
  - intros c u Hcu Hu. destruct (decide (sid = c)) as [<-|Hne].
    + by rewrite lookup_delete_eq in Hcu.
    + rewrite lookup_delete_ne in Hcu by done. destruct (Hc c u Hcu Hu) as [l [Hl Hcl]].
      destruct (decide (v = u)) as [<-|Hne'].
      * eexists. rewrite lookup_insert_eq. split; [done|]. apply Hl'.
        rewrite Hl0 in Hl. injection Hl as <-. split; congruence.
      * exists l. by rewrite lookup_insert_ne by done.
  - intros u l Hu. destruct (decide (v = u)) as [<-|Hne].
    + by rewrite lookup_delete_eq in Hu.
    + rewrite lookup_delete_ne in Hu by done. by apply (regOk_delete_other us ss sid v).
  - intros c u Hcu Hu. destruct (decide (sid = c)) as [<-|Hne].
    + by rewrite lookup_delete_eq in Hcu.
    + rewrite lookup_delete_ne in Hcu by done. destruct (Hc c u Hcu Hu) as [l [Hl Hcl]].
      destruct (decide (v = u)) as [<-|Hne'].
      * exfalso. rewrite Hl0 in Hl. injection Hl as <-.
        assert (Hin : c ∈ filter (fun id => id <> sid) l0) by (apply Hl'; split; congruence).
        apply list_elem_of_lookup_1 in Hin as [i Hi]. apply lookup_lt_Some in Hi. lia.
      * exists l. by rewrite lookup_delete_ne by done.
Qed.

Lemma anon_disconnect_ok us ss sid :
  regOk us ss -> regComplete us ss -> ss !! sid = Some "" ->
  regOk us (delete sid ss) /\ regComplete us (delete sid ss).
Proof.
  intros Hok Hc Hs. split.
  - intros u l Hu. destruct (Hok u l Hu) as (Hne & _ & _ & _).
    by apply (regOk_delete_other us ss sid "").
  - intros c u Hcu Hu. destruct (decide (sid = c)) as [<-|Hne].
    + by rewrite lookup_delete_eq in Hcu.
    + rewrite lookup_delete_ne in Hcu by done. auto.
Qed.

Section Consistency.
Context `{E : Collaborators}.

Lemma onConnection_consistent s sid uid :
  consistent s -> sockets s !! sid = None -> consistent (onConnection s sid uid).1.
Proof.
  destruct s as [us ss rs ms]. intros (Hok & Hc & Hr) Hn. simpl in *.
  unfold onConnection, setRooms, setSockets, setUserSockets. simpl.
  assert (Hr1 : roomsOk (joinRoom rs sid sid) (<[sid:=uid]> ss)).
  { apply joinRoom_ok; [|by rewrite lookup_insert_eq].
    apply (roomsOk_mono _ ss); [done|].
    intros c [x Hx]. destruct (decide (sid = c)) as [<-|Hne].
    - by rewrite lookup_insert_eq.
    - rewrite lookup_insert_ne by done. by exists x. }
  case_decide as Hu; simpl.
  - subst uid. split_and!; [by apply regOk_fresh|by apply regComplete_fresh_anon|done].
  - destruct (register_ok us ss sid uid Hok Hc Hn Hu) as [H1 H2].
    split_and!; [done|done|]. apply joinRoom_ok; [done|simpl; by rewrite lookup_insert_eq].
Qed.

Lemma onSendMessage_consistent persist s now sid d :
  consistent s -> consistent (onSendMessage persist s now sid d).1.
Proof. intros Hc. unfold onSendMessage. repeat case_match; exact Hc. Qed.

Lemma onJoinGroup_consistent s sid g :
  consistent s -> consistent (onJoinGroup s sid g).1.
Proof.
  destruct s as [us ss rs ms]. intros (Hok & Hc & Hr).
  unfold onJoinGroup, setRooms. simpl in *.
  destruct (ss !! sid) eqn:Hs; [|done].
  repeat case_match; try done. simpl. split_and!; [done|done|].
  apply joinRoom_ok; [done|simpl; by rewrite Hs].
Qed.

Lemma onLeaveGroup_consistent s sid g :
  consistent s -> consistent (onLeaveGroup s sid g).1.
Proof.
  destruct s as [us ss rs ms]. intros (Hok & Hc & Hr).
  unfold onLeaveGroup, setRooms. simpl in *.
  destruct (ss !! sid) eqn:Hs; [|done]. simpl.
  split_and!; [done|done|]. by apply leaveRoom_ok.
Qed.

Lemma onDisconnect_consistent s sid :
  consistent s -> consistent (onDisconnect s sid).1.
Proof.
  destruct s as [us ss rs ms]. intros (Hok & Hc & Hr).
  unfold onDisconnect, setRooms, setSockets, setUserSockets. simpl in *.
  destruct (ss !! sid) as [v|] eqn:Hs; [|done].
  case_decide as Hv; simpl.
  - subst v. destruct (anon_disconnect_ok _ _ _ Hok Hc Hs) as [H1 H2].
    split_and!; [done|done|]. by apply leaveAll_ok.
  - destruct (unregister_ok _ _ _ _ Hok Hc Hs Hv) as [H1 H2].
    destruct (unregisterSocket us v sid) as [us' off]. simpl in *.
    split_and!; [done|done|]. by apply leaveAll_ok.
Qed.

Lemma step_consistent s now sid a :
  consistent s -> freshConnect s sid a -> consistent (step s now sid a).1.
Proof.
  intros Hc Hf. destruct a; simpl in Hf |- *.
  - unfold connect. destruct (authenticate token); [|done].
    by apply onConnection_consistent.
  - by apply onSendMessage_consistent.
  - by apply onJoinGroup_consistent.
  - by apply onLeaveGroup_consistent.
  - unfold onTyping. by repeat case_match.
  - unfold onTyping. by repeat case_match.
  - unfold onMarkMessagesRead. by repeat case_match.
  - by apply onDisconnect_consistent.
Qed.

Lemma run_fst s tr : (run s tr).1 =
  match tr with [] => s | i :: tr' => (run (step s (at_time i) (actor i) (act i)).1 tr').1 end.
Proof.
  destruct tr as [|i tr']; [done|].
  change (run s (i :: tr')) with
    (let '(s1, out) := step s (at_time i) (actor i) (act i) in
     let '(s2, log) := run s1 tr' in (s2, (actor i, out) :: log)).
  destruct (step s (at_time i) (actor i) (act i)) as [s1 out]. simpl.
  by destruct (run s1 tr').
Qed.

Lemma run_consistent s tr :
  consistent s -> connectsFresh s tr = true -> consistent (run s tr).1.
Proof.
  revert s. induction tr as [|i tr IH]; intros s Hc Hf; [done|].
  rewrite run_fst. simpl in Hf. apply andb_true_iff in Hf as [Hi Htr].
  apply IH; [|done]. apply step_consistent; [done|].
  unfold freshConnect. destruct (act i); try done. by apply bool_decide_eq_true_1 in Hi.
Qed.

Lemma emptyServer_consistent : consistent emptyServer.
Proof.
  unfold consistent, emptyServer, regOk, regComplete, roomsOk. simpl.
  split_and!; intros ?? H; by rewrite lookup_empty in H.
Qed.

End Consistency.

Lemma roomsOk_target rs ss r t : roomsOk rs ss -> t ∈ roomMembers rs r -> is_Some (ss !! t).
Proof.
  intros Hr Ht. apply roomMembers_elem in Ht as [l [Hl Ht]].
  destruct (Hr r l Hl) as (_ & _ & Hc). auto.
Qed.

(** A socket that is not connected is in no room and no registry list. *)
Lemma consistent_closed_absent s sid :
  consistent s -> sockets s !! sid = None ->
  absentFrom (userSockets s) sid /\ absentFrom (rooms s) sid.
Proof.
  intros (Hok & _ & Hr) Hn. split.
  - intros u l Hu Hin. destruct (Hok u l Hu) as (_ & _ & _ & Hc).
    rewrite (Hc sid Hin) in Hn. discriminate.
  - intros r l Hl Hin. destruct (Hr r l Hl) as (_ & _ & Hc).
    destruct (Hc sid Hin) as [x Hx]. congruence.
Qed.

Lemma leaveAll_joinRoom rs r sid : leaveAll (joinRoom rs r sid) sid = leaveAll rs sid.
Proof.
  unfold joinRoom, roomMembers. case_decide as Hin; [done|].
  apply map_eq. intros r'. unfold leaveAll. rewrite !lookup_omap.
  destruct (decide (r = r')) as [<-|Hne].
  - rewrite lookup_insert_eq. simpl. rewrite filter_app, filter_cons_False by tauto.
    rewrite ?filter_nil, ?app_nil_r.
    destruct (rs !! r) as [l|]; simpl; [done|]. by rewrite ?filter_nil.
  - by rewrite lookup_insert_ne by done.
Qed.

Lemma leaveAll_absent_id rs ss sid :
  roomsOk rs ss -> ss !! sid = None -> leaveAll rs sid = rs.
Proof.
  intros Hr Hn. apply map_eq. intros r. unfold leaveAll. rewrite lookup_omap.
  destruct (rs !! r) as [l|] eqn:Hl; simpl; [|done].
  destruct (Hr r l Hl) as (Hne & _ & Hc).
  rewrite filter_all_id.
  - destruct l; [contradiction|done].
  - intros x Hx Hxs. subst x. destruct (Hc sid Hx) as [y Hy]. congruence.
Qed.

Lemma unregister_register us ss sid uid :
  regOk us ss -> ss !! sid = None ->
  unregisterSocket (registerSocket us uid sid) uid sid = (us, bool_decide (us !! uid = None)).
Proof.
  intros Hok Hn. unfold unregisterSocket, registerSocket. rewrite lookup_insert_eq. simpl.
  rewrite filter_app, filter_cons_False by tauto. rewrite ?filter_nil, ?app_nil_r.
  destruct (us !! uid) as [l|] eqn:Hu; simpl.
  - destruct (Hok uid l Hu) as (_ & Hne & _ & Hc).
    rewrite filter_all_id.
    + rewrite decide_True.
      * rewrite insert_insert_eq, insert_id by done. by rewrite ?bool_decide_eq_false_2.
      * destruct l; [contradiction|simpl; lia].
    + intros x Hx Hxs. subst x. rewrite (Hc sid Hx) in Hn. discriminate.
  - rewrite ?filter_nil. simpl. rewrite ?decide_False by (simpl; lia).
    rewrite delete_insert_id by done. by rewrite ?bool_decide_eq_true_2.
Qed.

Lemma NoDup_all_eq_singleton (l : list string) a :
  NoDup l -> a ∈ l -> (forall x, x ∈ l -> x = a) -> l = [a].
Proof.
  intros Hnd Ha Hall. destruct l as [|x [|y l]].
  - by apply elem_of_nil in Ha.
  - f_equal. apply Hall. by left.
  - exfalso. apply NoDup_cons in Hnd as [Hx _]. apply Hx.
    rewrite (Hall x), (Hall y); [by left|by right; left|by left].
Qed.

(** From the empty server, as long as socket ids are fresh on connection,
    the registry, the connected sockets and the rooms stay consistent. *)
Theorem reachable_consistent `{E : Collaborators} tr :
  connectsFresh emptyServer tr = true -> consistent (run emptyServer tr).1.
Proof. intros Hf. apply run_consistent; [apply emptyServer_consistent|done]. Qed.

(** In every reachable state, [isUserOnline u] holds exactly when some
    connected socket is authenticated as [u] (and [u] is not ""). *)
Theorem reachable_online_iff_connected `{E : Collaborators} tr u :
  connectsFresh emptyServer tr = true ->
  isUserOnline (userSockets (run emptyServer tr).1) u = true <->
  u <> "" /\ exists c, sockets (run emptyServer tr).1 !! c = Some u.
Proof.
  intros Hf. destruct (run_consistent emptyServer tr emptyServer_consistent Hf)
    as (Hok & Hc & _).
  set (s := (run emptyServer tr).1) in *. unfold isUserOnline. rewrite bool_decide_eq_true.
  split.
  - intros [l Hl]. destruct (Hok u l Hl) as (Hu & Hne & _ & Hcs). split; [done|].
    destruct l as [|c l]; [contradiction|]. exists c. apply Hcs. by left.
  - intros [Hu [c Hcu]]. destruct (Hc c u Hcu Hu) as [l [Hl _]]. by exists l.
Qed.

(** In a consistent state, every event a step emits goes to a socket that
    is connected after the step: nothing is sent on a closed connection. *)
Theorem step_delivers_to_open_sockets `{E : Collaborators} s now sid a s' out :
  consistent s -> freshConnect s sid a -> step s now sid a = (s', out) ->
  forall t ev, (t, ev) ∈ out -> is_Some (sockets s' !! t).
Proof.
  intros Hc Hf Hs t ev Hin.
  assert (Hc' : consistent s') by (change s' with (s', out).1; rewrite <- Hs;
                                   by apply step_consistent).
  destruct Hc' as (_ & _ & Hr').
  destruct a; simpl in Hs;
    unfold connect, onConnection, onSendMessage, onJoinGroup, onLeaveGroup,
      onTyping, onMarkMessagesRead, onDisconnect in Hs;
    repeat case_match; simplify_eq;
    unfold emitUserStatus, emitDirectMessage, emitGroupMessage in *;
    repeat match goal with
    | H : _ ∈ _ ++ _ |- _ => apply elem_of_app in H as [H|H]
    | H : _ ∈ [] |- _ => by apply elem_of_nil in H
    | H : (_, _) ∈ [(_, _)] |- _ =>
        apply list_elem_of_singleton in H; injection H as -> _;
        unfold setMessages; simpl; eexists; eassumption
    | H : _ ∈ ioTo _ _ _ |- _ =>
        unfold ioTo in H; apply deliverTo_elem in H; by eapply roomsOk_target
    | H : _ ∈ socketTo _ _ _ _ |- _ =>
        unfold socketTo in H; apply deliverTo_elem, list_elem_of_filter in H as [_ H];
        by eapply roomsOk_target
    | H : _ ∈ ioEmit _ _ |- _ => unfold ioEmit in H; by apply deliverTo_elem, keys_elem in H
    end.
Qed.

(** A fresh connection that is accepted and then closed leaves the
    registry, the connected sockets and the rooms as they were; the
    disconnect emits "offline" exactly when the identity was offline
    before the connection. *)
Theorem connect_then_disconnect_restores `{E : Collaborators} s t1 t2 sid token uid :
  consistent s -> sockets s !! sid = None -> authenticate token = Some uid ->
  step (step s t1 sid (Connect token)).1 t2 sid Disconnect =
  (s, if bool_decide (uid <> "" /\ userSockets s !! uid = None)
      then emitUserStatus s uid false else []).
Proof.
  destruct s as [us ss rs ms]. intros (Hok & Hc & Hr) Hn Ha. simpl in *.
  unfold connect. rewrite Ha.
  unfold onConnection, onDisconnect, setRooms, setSockets, setUserSockets. simpl.
  case_decide as Hu; simpl.
  - subst uid. rewrite lookup_insert_eq. simpl. rewrite ?decide_True by done.
    rewrite delete_insert_id by done.
    rewrite leaveAll_joinRoom, (leaveAll_absent_id rs ss) by done.
    rewrite ?bool_decide_eq_false_2 by tauto. done.
  - rewrite lookup_insert_eq. simpl. rewrite decide_False by done.
    rewrite (unregister_register us ss) by done. simpl.
    rewrite delete_insert_id by done.
    rewrite !leaveAll_joinRoom, (leaveAll_absent_id rs ss) by done.
    f_equal. case_bool_decide as H1; case_bool_decide as H2; tauto.
Qed.

(** When a socket of a logged-in identity disconnects, afterwards it is
    nowhere in the presence state, and "offline" is emitted exactly when
    it was the identity's only socket. *)
Theorem disconnect_offline_iff_last s sid u s' out :
  consistent s -> sockets s !! sid = Some u -> u <> "" ->
  onDisconnect s sid = (s', out) ->
  notAdmitted s' sid /\
  out = if bool_decide (userSockets s !! u = Some [sid])
        then emitUserStatus s' u false else [].
Proof.
  intros Hcons Hs Hu Hd.
  assert (Hc' : consistent s') by (change s' with (s', out).1; rewrite <- Hd;
                                   by apply onDisconnect_consistent).
  assert (Hn' : sockets s' !! sid = None).
  { revert Hd. unfold onDisconnect. rewrite Hs. rewrite decide_False by done.
    destruct (unregisterSocket _ _ _). intros [= <- _]. simpl. apply lookup_delete_eq. }
  split.
  - split; [done|]. by apply consistent_closed_absent.
  - destruct Hcons as (Hok & Hc & _).
    destruct (Hc sid u Hs Hu) as [l [Hl Hsl]]. destruct (Hok u l Hl) as (_ & _ & Hnd & _).
    revert Hd. unfold onDisconnect. rewrite Hs. rewrite decide_False by done.
    unfold unregisterSocket. simpl. rewrite Hl. simpl.
    case_decide as Hlen; intros [= <- <-].
    + rewrite bool_decide_eq_false_2; [done|]. intros [= ->].
      rewrite filter_cons_False in Hlen by tauto. simpl in Hlen. lia.
    + rewrite bool_decide_eq_true_2; [done|]. f_equal.
      apply NoDup_all_eq_singleton; [done|done|].
      intros x Hx. destruct (decide (x = sid)) as [->|Hne]; [done|exfalso].
      apply Hlen. assert (Hin : x ∈ filter (fun id => id <> sid) l)
        by (apply list_elem_of_filter; tauto).
      apply list_elem_of_lookup_1 in Hin as [i Hi]. apply lookup_lt_Some in Hi. lia.
Qed.




(** [typing-start] / [typing-stop] change nothing and never send the
    notification back to the typing socket. *)
Theorem typing_no_change_no_echo stop s sid d s' out :
  onTyping stop s sid d = (s', out) -> s' = s /\ forall ev, (sid, ev) ∉ out.
Proof.
  unfold onTyping. repeat case_match; intros [= <- <-]; split; try done;
    intros ev Hin; try by apply elem_of_nil in Hin.
  all: unfold socketTo in Hin; apply deliverTo_elem, list_elem_of_filter in Hin as [Hx _];
       by apply Hx.
Qed.

Lemma sendMessage_target_errors `{E : Collaborators} ms now s c r g :
  ((exists x, r = Some x) /\ g = None) \/ (r = None /\ exists y, g = Some y) ->
  sendMessage ms now s c r g <> inl "Either receiver or group must be provided" /\
  sendMessage ms now s c r g <> inl "Message cannot have both receiver and group".
Proof.
  intros [[[x ->] ->]|[-> [y ->]]]; unfold sendMessage; split; repeat case_match; simplify_eq; discriminate.
Qed.

(** When [isValidObjectId ""] is false (as for Mongoose), a payload that
    passes [createMessageSchema] names exactly one target, so the
    handler never gets the service's "no target" or "two targets" error. *)
Theorem parsed_payload_single_target `{E : Collaborators} d c r g :
  isValidObjectId "" = false -> parseCreateMessage d = Some (c, r, g) ->
  (((exists x, r = Some x) /\ g = None) \/ (r = None /\ exists y, g = Some y)) /\
  forall ms now s,
    sendMessage ms now s c r g <> inl "Either receiver or group must be provided" /\
    sendMessage ms now s c r g <> inl "Message cannot have both receiver and group".
Proof.
  intros Hv Hp.
  assert (Ht : ((exists x, r = Some x) /\ g = None) \/ (r = None /\ exists y, g = Some y)).
  { revert Hp. unfold parseCreateMessage, truthy.
    destruct d as [cc [x|] [y|]]; simpl; repeat case_match; intros Hp; simplify_eq;
      rewrite ?Hv, ?andb_false_r in *; simpl in *; try discriminate;
      first [left; split; [eexists; reflexivity|reflexivity]
            |right; split; [reflexivity|eexists; reflexivity]]. }
  split; [done|]. intros ms now s. by apply sendMessage_target_errors.
Qed.



Lemma scenarioState_consistent : consistent scenarioState.
Proof.
  unfold scenarioState. apply (run_consistent (E := demoCollab)).
  - apply emptyServer_consistent.
  - vm_compute. reflexivity.
Qed.

Lemma reachable_consistent_witness :
  connectsFresh (E := demoCollab) emptyServer scenarioSetup = true /\
  consistent (run (E := demoCollab) emptyServer scenarioSetup).1.
Proof.
  assert (H : connectsFresh (E := demoCollab) emptyServer scenarioSetup = true)
    by (vm_compute; reflexivity).
  split; [exact H|]. exact (reachable_consistent (E := demoCollab) scenarioSetup H).
Defined.

Lemma reachable_online_iff_connected_witness :
  connectsFresh (E := demoCollab) emptyServer scenarioSetup = true /\
  (isUserOnline (userSockets (run (E := demoCollab) emptyServer scenarioSetup).1) "U2" = true <->
   "U2" <> "" /\
   exists c, sockets (run (E := demoCollab) emptyServer scenarioSetup).1 !! c = Some "U2").
Proof.
  assert (H : connectsFresh (E := demoCollab) emptyServer scenarioSetup = true)
    by (vm_compute; reflexivity).
  split; [exact H|].
  exact (reachable_online_iff_connected (E := demoCollab) scenarioSetup "U2" H).
Defined.

Lemma step_delivers_to_open_sockets_witness :
  let r := step (E := demoCollab) scenarioState 5 "c1" (SendMessageCmd helloData) in
  consistent scenarioState /\
  forall t ev, (t, ev) ∈ r.2 -> is_Some (sockets r.1 !! t).
Proof.
  intros r. split; [apply scenarioState_consistent|].
  apply (step_delivers_to_open_sockets (E := demoCollab) scenarioState 5 "c1"
           (SendMessageCmd helloData) r.1 r.2).
  - apply scenarioState_consistent.
  - simpl. exact I.
  - apply surjective_pairing.
Defined.

Lemma connect_then_disconnect_restores_witness :
  sockets scenarioState !! "c4" = None /\
  authenticate (E := demoCollab) (Some "t1") = Some "U1" /\
  step (E := demoCollab) (step (E := demoCollab) scenarioState 7 "c4" (Connect (Some "t1"))).1
    8 "c4" Disconnect =
  (scenarioState, if bool_decide ("U1" <> "" /\ userSockets scenarioState !! "U1" = None)
                  then emitUserStatus scenarioState "U1" false else []).
Proof.
  assert (H1 : sockets scenarioState !! "c4" = None) by (vm_compute; reflexivity).
  assert (H2 : authenticate (E := demoCollab) (Some "t1") = Some "U1")
    by (vm_compute; reflexivity).
  split; [exact H1|]. split; [exact H2|].
  apply (connect_then_disconnect_restores (E := demoCollab)); [|exact H1|exact H2].
  apply scenarioState_consistent.
Defined.

Lemma disconnect_offline_iff_last_witness :
  let r := onDisconnect scenarioState "c1" in
  sockets scenarioState !! "c1" = Some "U1" /\
  (notAdmitted r.1 "c1" /\
   r.2 = if bool_decide (userSockets scenarioState !! "U1" = Some ["c1"])
         then emitUserStatus r.1 "U1" false else []).
Proof.
  intros r.
  assert (H : sockets scenarioState !! "c1" = Some "U1") by (vm_compute; reflexivity).
  split; [exact H|].
  apply (disconnect_offline_iff_last scenarioState "c1" "U1" r.1 r.2).
  - apply scenarioState_consistent.
  - exact H.
  - discriminate.
  - apply surjective_pairing.
Defined.


Lemma typing_no_change_no_echo_witness :
  let r := onTyping false scenarioState "c1" (mkTypingData None (Some "G1")) in
  r.1 = scenarioState /\ forall ev, ("c1", ev) ∉ r.2.
Proof.
  intros r.
  exact (typing_no_change_no_echo false scenarioState "c1" (mkTypingData None (Some "G1"))
           r.1 r.2 (surjective_pairing _)).
Defined.

Lemma parsed_payload_single_target_witness :
  parseCreateMessage (E := strictIdCollab) (mkSendData "hi" (Some "U2") None) =
    Some ("hi", Some "U2", None) /\
  ((((exists x, Some "U2" = Some x) /\ @None string = None) \/
    (Some "U2" = None /\ exists y, @None string = Some y)) /\
   forall ms now s,
     sendMessage (E := strictIdCollab) ms now s "hi" (Some "U2") None <>
       inl "Either receiver or group must be provided" /\
     sendMessage (E := strictIdCollab) ms now s "hi" (Some "U2") None <>
       inl "Message cannot have both receiver and group").
Proof.
  assert (H : parseCreateMessage (E := strictIdCollab) (mkSendData "hi" (Some "U2") None) =
                Some ("hi", Some "U2", None)) by (vm_compute; reflexivity).
  split; [exact H|].
  apply (parsed_payload_single_target (E := strictIdCollab)
           (mkSendData "hi" (Some "U2") None)); [|exact H].
  vm_compute. reflexivity.
Defined.


(* ------------------------------------------------------------------ *)
(** ** Identity rooms *)

Lemma joinRoom_mem_keep rs r c0 r' c :
  c ∈ roomMembers rs r' -> c ∈ roomMembers (joinRoom rs r c0) r'.
Proof.
  unfold joinRoom. case_decide; [done|]. unfold roomMembers at 2 3.
  destruct (decide (r = r')) as [<-|Hne].
  - rewrite lookup_insert_eq. simpl. intros Hc. apply elem_of_app. by left.
  - by rewrite lookup_insert_ne.
Qed.

Lemma joinRoom_mem_self rs r c0 : c0 ∈ roomMembers (joinRoom rs r c0) r.
Proof.
  unfold joinRoom. case_decide; [done|]. unfold roomMembers at 1.
  rewrite lookup_insert_eq. simpl. apply elem_of_app. right. by apply list_elem_of_singleton.
Qed.

Lemma leaveRoom_mem_keep rs r sid r' c :
  c <> sid \/ r <> r' -> c ∈ roomMembers rs r' -> c ∈ roomMembers (leaveRoom rs r sid) r'.
Proof.
  unfold leaveRoom, roomMembers. intros Hor Hc.
  destruct (rs !! r) as [l|] eqn:Hr; [|done].
  destruct (filter _ l) as [|x xs] eqn:Hf; destruct (decide (r = r')) as [<-|Hne].
  - exfalso. rewrite Hr in Hc. simpl in Hc.
    assert (Hin : c ∈ filter (fun x => x <> sid) l)
      by (apply list_elem_of_filter; split; [naive_solver|done]).
    rewrite Hf in Hin. by apply elem_of_nil in Hin.
  - by rewrite lookup_delete_ne.
  - rewrite lookup_insert_eq. simpl. rewrite <- Hf. rewrite Hr in Hc. simpl in Hc.
    apply list_elem_of_filter. split; [naive_solver|done].
  - by rewrite lookup_insert_ne.
Qed.

Lemma leaveAll_mem_keep rs sid r c :
  c <> sid -> c ∈ roomMembers rs r -> c ∈ roomMembers (leaveAll rs sid) r.
Proof.
  unfold leaveAll, roomMembers. rewrite lookup_omap. intros Hne Hc.
  destruct (rs !! r) as [l|]; simpl in *; [|done].
  assert (Hin : c ∈ filter (fun x => x <> sid) l) by (by apply list_elem_of_filter).
  destruct (filter _ l) as [|x xs]; [by apply elem_of_nil in Hin|done].
Qed.

Lemma step_userRoomsOk `{E : Collaborators} s now sid a :
  userRoomsOk s -> freshConnect s sid a -> leaveSafe s sid a ->
  userRoomsOk (step s now sid a).1.
Proof.
  destruct s as [us ss rs ms]. unfold userRoomsOk. simpl.
  intros Hu Hf Hl. destruct a; simpl in Hf, Hl |- *.
  - unfold connect. destruct (authenticate token) as [uid|]; [|done].
    unfold onConnection, setRooms, setSockets, setUserSockets. simpl.
    case_decide as Huid; simpl; intros c u Hc Hne.
    + destruct (decide (sid = c)) as [<-|Hsc].
      * rewrite lookup_insert_eq in Hc. congruence.
      * rewrite lookup_insert_ne in Hc by done. apply joinRoom_mem_keep. auto.
    + destruct (decide (sid = c)) as [<-|Hsc].
      * rewrite lookup_insert_eq in Hc. injection Hc as <-. apply joinRoom_mem_self.
      * rewrite lookup_insert_ne in Hc by done. apply joinRoom_mem_keep, joinRoom_mem_keep.
        auto.
  - unfold onSendMessage. repeat case_match; done.
  - unfold onJoinGroup. repeat case_match; try done. simpl. intros c u Hc Hne.
    apply joinRoom_mem_keep. auto.
  - unfold onLeaveGroup. simpl. destruct (ss !! sid) as [v|] eqn:Hs; simpl; [|exact Hu].
    intros c u Hc Hne. apply leaveRoom_mem_keep; [|auto].
    destruct (decide (c = sid)) as [->|Hcs]; [right|by left].
    rewrite Hs in Hc. injection Hc as ->. intros Heq. apply Hl. by rewrite Heq.
  - unfold onTyping. repeat case_match; done.
  - unfold onTyping. repeat case_match; done.
  - unfold onMarkMessagesRead. repeat case_match; done.
  - unfold onDisconnect, setRooms, setSockets, setUserSockets. simpl.
    destruct (ss !! sid) as [v|] eqn:Hs; simpl; [|exact Hu].
    case_decide; [|destruct (unregisterSocket _ _ _)]; simpl; intros c u Hc Hne;
      (destruct (decide (sid = c)) as [<-|Hsc];
       [by rewrite lookup_delete_eq in Hc
       |rewrite lookup_delete_ne in Hc by done; apply leaveAll_mem_keep; auto]).
Qed.

Lemma run_userRoomsOk `{E : Collaborators} s tr :
  userRoomsOk s -> connectsFresh s tr = true -> leavesSafe s tr = true ->
  userRoomsOk (run s tr).1.
Proof.
  revert s. induction tr as [|i tr IH]; intros s Hu Hf Hl; [done|].
  rewrite run_fst. simpl in Hf, Hl.
  apply andb_true_iff in Hf as [Hfi Hf]. apply andb_true_iff in Hl as [Hli Hl].
  apply IH; [|done|done]. apply step_userRoomsOk; [done| |].
  - unfold freshConnect. destruct (act i); try done. by apply bool_decide_eq_true_1 in Hfi.
  - unfold leaveSafe. destruct (act i); try done. by apply bool_decide_eq_true_1 in Hli.
Qed.

Lemma deliverTo_mem c ids ev : c ∈ ids -> (c, ev) ∈ deliverTo ids ev.
Proof. intros Hc. unfold deliverTo. apply list_elem_of_fmap. by exists c. Qed.

Lemma parse_receiver_nonempty `{E : Collaborators} d c r :
  parseCreateMessage d = Some (c, Some r, None) -> r <> "".
Proof.
  unfold parseCreateMessage, truthy.
  destruct d as [cc [x|] [y|]]; simpl; repeat case_match; intros Hp; simplify_eq; done.
Qed.

(** As long as socket ids are fresh and no [leave-group] names a room equal
    to the socket's identity, every connected socket of a logged-in
    identity stays in that identity's room. *)
Theorem reachable_userRoomsOk `{E : Collaborators} tr :
  connectsFresh emptyServer tr = true -> leavesSafe emptyServer tr = true ->
  userRoomsOk (run emptyServer tr).1.
Proof.
  intros Hf Hl. apply run_userRoomsOk; [|done|done].
  intros c u Hc. simpl in Hc. by rewrite lookup_empty in Hc.
Qed.

(** When every socket is in its identity's room, a direct message sent
    over a socket reaches every connected socket of the receiver (with
    [isOwn = false]) and every connected socket of the sender (with
    [isOwn = true]). *)
Theorem directMessage_reaches_all_sockets `{E : Collaborators} s now sid d u c r m ms' :
  userRoomsOk s -> sockets s !! sid = Some u -> u <> "" ->
  parseCreateMessage d = Some (c, Some r, None) ->
  sendMessage (messages s) now u c (Some r) None = inr (m, ms') ->
  (forall c', sockets s !! c' = Some r ->
     (c', DirectMessage (withIsOwn false (formatMessage m))) ∈
       (onSendMessage sendMessage s now sid d).2) /\
  (forall c', sockets s !! c' = Some u ->
     (c', DirectMessage (withIsOwn true (formatMessage m))) ∈
       (onSendMessage sendMessage s now sid d).2).
Proof.
  intros Hur Hs Hu Hp Hm. pose proof (parse_receiver_nonempty d c r Hp) as Hr.
  unfold onSendMessage. rewrite Hs, decide_False by done. rewrite Hp, Hm. simpl.
  split; intros c' Hc'; apply elem_of_app; left; unfold emitDirectMessage;
    apply elem_of_app; [right|left]; unfold ioTo; apply deliverTo_mem; simpl; auto.
Qed.

(** After a successful [deleteMessage] the message is not found any more. *)
Theorem deleteMessage_then_not_found ms id u ms' :
  deleteMessage ms id u = inr ms' -> findMessageById ms' id = None.
Proof.
  unfold deleteMessage. destruct (findMessageById ms id); [|discriminate].
  case_decide; [discriminate|]. intros [= <-].
  unfold findMessageById. destruct (List.find _ _) as [x|] eqn:Hf; [|done].
  apply List.find_some in Hf as [Hin Hb].
  apply list_elem_of_In, list_elem_of_filter in Hin as [Hne _].
  apply bool_decide_eq_true_1 in Hb. contradiction.
Qed.


Lemma filter_ext_elem {A} (P1 P2 : A -> Prop) `{forall x, Decision (P1 x)}
    `{forall x, Decision (P2 x)} (l : list A) :
  (forall x, x ∈ l -> P1 x <-> P2 x) -> filter P1 l = filter P2 l.
Proof.
  induction l as [|a l IH]; intros Hx; [done|]. rewrite !filter_cons.
  assert (Ha : P1 a <-> P2 a) by (apply Hx; by left).
  rewrite IH by (intros y Hy; apply Hx; by right).
  destruct (decide (P1 a)), (decide (P2 a)); tauto.
Qed.

(** A direct message that is stored by appending it, and then marked as
    read by its receiver, leaves the receiver's unread count as it was
    before the send (when no stored message has the new message's id). *)
Theorem send_then_mark_read_restores_unread `{E : Collaborators} ms now s c rid m t :
  sendMessage ms now s c (Some rid) None = inr (m, ms ++ [m]) ->
  (forall x, x ∈ ms -> m_id x <> m_id m) ->
  getUnreadDirectMessageCount (markMessagesAsRead (ms ++ [m]) rid [m_id m] t) rid s =
  getUnreadDirectMessageCount ms rid s.
Proof.
  intros Hs Hfresh.
  unfold getUnreadDirectMessageCount, markMessagesAsRead.
  rewrite (filter_fmap_length _ (fun x => (sender x = s /\ receiver x = Some rid /\
                                           rid ∉ readBy x) /\ m_id x ∉ [m_id m])).
  - rewrite filter_app, length_app, filter_cons_False
      by (rewrite list_elem_of_singleton; tauto).
    rewrite filter_nil. simpl. rewrite Nat.add_0_r.
    f_equal. apply filter_ext_elem. intros x Hx. rewrite list_elem_of_singleton.
    specialize (Hfresh x). naive_solver.
  - intros x. destruct (markOne_fields rid [m_id m] t x) as (-> & -> & _ & _ & Hr).
    rewrite Hr. tauto.
Qed.

Lemma scenarioState_userRoomsOk : userRoomsOk scenarioState.
Proof.
  unfold scenarioState. apply (run_userRoomsOk (E := demoCollab)).
  - intros c u Hc. simpl in Hc. by rewrite lookup_empty in Hc.
  - vm_compute. reflexivity.
  - vm_compute. reflexivity.
Qed.

Lemma reachable_userRoomsOk_witness :
  connectsFresh (E := demoCollab) emptyServer scenarioSetup = true /\
  leavesSafe (E := demoCollab) emptyServer scenarioSetup = true /\
  userRoomsOk (run (E := demoCollab) emptyServer scenarioSetup).1.
Proof.
  assert (H1 : connectsFresh (E := demoCollab) emptyServer scenarioSetup = true)
    by (vm_compute; reflexivity).
  assert (H2 : leavesSafe (E := demoCollab) emptyServer scenarioSetup = true)
    by (vm_compute; reflexivity).
  split; [exact H1|]. split; [exact H2|].
  exact (reachable_userRoomsOk (E := demoCollab) scenarioSetup H1 H2).
Defined.

Lemma directMessage_reaches_all_sockets_witness :
  let d := mkSendData "hey" (Some "U2") None in
  let m := mkMessage 0 "hey" "U1" (Some "U2") None ["U1"] 5 5 in
  parseCreateMessage (E := demoCollab) d = Some ("hey", Some "U2", None) /\
  sendMessage (E := demoCollab) (messages scenarioState) 5 "U1" "hey" (Some "U2") None =
    inr (m, [m]) /\
  ((forall c' : string, sockets scenarioState !! c' = Some "U2" ->
     (c', DirectMessage (withIsOwn false (formatMessage m))) ∈
       (onSendMessage (E := demoCollab) (sendMessage (E := demoCollab)) scenarioState 5 "c1" d).2) /\
   (forall c' : string, sockets scenarioState !! c' = Some "U1" ->
     (c', DirectMessage (withIsOwn true (formatMessage m))) ∈
       (onSendMessage (E := demoCollab) (sendMessage (E := demoCollab)) scenarioState 5 "c1" d).2)).
Proof.
  intros d m.
  assert (Hp : parseCreateMessage (E := demoCollab) d = Some ("hey", Some "U2", None))
    by (vm_compute; reflexivity).
  assert (Hm : sendMessage (E := demoCollab) (messages scenarioState) 5 "U1" "hey"
                 (Some "U2") None = inr (m, [m])) by (vm_compute; reflexivity).
  split; [exact Hp|]. split; [exact Hm|].
  apply (directMessage_reaches_all_sockets (E := demoCollab) scenarioState 5 "c1" d "U1"
           "hey" "U2" m [m]).
  - apply scenarioState_userRoomsOk.
  - vm_compute. reflexivity.
  - discriminate.
  - exact Hp.
  - exact Hm.
Defined.

Lemma deleteMessage_then_not_found_witness :
  deleteMessage demoStore 1 "U2" = inr [msgA; msgC] /\
  findMessageById [msgA; msgC] 1 = None.
Proof.
  assert (H : deleteMessage demoStore 1 "U2" = inr [msgA; msgC]) by (vm_compute; reflexivity).
  split; [exact H|]. exact (deleteMessage_then_not_found demoStore 1 "U2" [msgA; msgC] H).
Defined.


Lemma send_then_mark_read_restores_unread_witness :
  sendMessage (E := demoCollab) demoStore 40 "U1" "x" (Some "U2") None =
    inr (msgD, demoStore ++ [msgD]) /\
  getUnreadDirectMessageCount (markMessagesAsRead (demoStore ++ [msgD]) "U2" [m_id msgD] 50)
    "U2" "U1" = getUnreadDirectMessageCount demoStore "U2" "U1".
Proof.
  assert (H : sendMessage (E := demoCollab) demoStore 40 "U1" "x" (Some "U2") None =
                inr (msgD, demoStore ++ [msgD])) by (vm_compute; reflexivity).
  split; [exact H|].
  apply (send_then_mark_read_restores_unread (E := demoCollab) demoStore 40 "U1" "x" "U2"
           msgD 50 H).
  intros x Hx. unfold demoStore in Hx. rewrite !elem_of_cons in Hx.
  destruct Hx as [->|[->|[->|Hn]]]; [cbv; congruence..|by apply elem_of_nil in Hn].
Defined.
